(** * Bikers Creed dashboard: colour sanitizer, club settings, ride creation
      and the achievement progress cards

    A shallow embedding of
    - [services/api] (colour sanitizer, [getClubSettings], [createRide]),
    - [types] ([Achievement], [ClubSettings], [Ride], [User]),
    - the [AchievementProgress] component of [App.tsx],
    and, for the properties numbered X1 onwards, of [login], [addRider],
    [getRideParticipants] and [deleteRide] of [services/api] and of the
    handlers and derived lists of [App.tsx]: the ride form, the achievement
    editor, the branding components, the member search, the roster and the
    login form.

    Conventions.
    - A JavaScript string is the sequence of its code units; a [string] here
      holds the code units in the range 0..255, on which [trim] and
      [toLowerCase] are written out in full.
    - [null] and [undefined] are [None].
    - Thresholds and counters are integers ([Z]): the achievement editor
      stores [parseInt(...) || 0] and the counters count rides and
      kilometres.  On integers JavaScript's subtraction and comparisons are
      exact.  The quotient of the progress formula is a [jsnum]: an exact
      rational, or one of the three values IEEE 754 gives a division by zero.
      Rounding of the quotient to a double is not modelled; the scenarios are
      also evaluated in binary64 ([raw_progress_double]).
    - An [async] function is the function from the backend's answer to the
      settled promise ([Resolved] or [Rejected]). *)

From Stdlib Require Import String Ascii List ZArith NArith QArith Bool Lia.
From Stdlib Require Import Sorted Permutation.
From Stdlib Require Import Floats.SpecFloat.
Import ListNotations.

Local Open Scope string_scope.

(* ================================================================= *)
(** ** JavaScript strings *)

Module JsString.

(** WhiteSpace and LineTerminator code units below 256: TAB, LF, VT, FF, CR,
    SP and NBSP. *)
Definition is_white_space (c : ascii) : bool :=
  let n := N_of_ascii c in
  ((9 <=? n) && (n <=? 13) || (n =? 32) || (n =? 160))%N.

Fixpoint trimStart (s : string) : string :=
  match s with
  | EmptyString => EmptyString
  | String c s' => if is_white_space c then trimStart s' else s
  end.

Fixpoint trimEnd (s : string) : string :=
  match s with
  | EmptyString => EmptyString
  | String c s' =>
      match trimEnd s' with
      | EmptyString => if is_white_space c then EmptyString
                       else String c EmptyString
      | r => String c r
      end
  end.

(** [String.prototype.trim]. *)
Definition trim (s : string) : string := trimEnd (trimStart s).

(** Lower-case mapping of one code unit: A-Z, and the Latin-1 capitals
    U+00C0..U+00DE except the multiplication sign U+00D7. *)
Definition lower_unit (c : ascii) : ascii :=
  let n := N_of_ascii c in
  if ((65 <=? n) && (n <=? 90)
      || (192 <=? n) && (n <=? 222) && negb (n =? 215))%N
  then ascii_of_N (n + 32) else c.

(** [String.prototype.toLowerCase]. *)
Fixpoint toLowerCase (s : string) : string :=
  match s with
  | EmptyString => EmptyString
  | String c s' => String (lower_unit c) (toLowerCase s')
  end.

(** [s.includes(p)]: [p] occurs in [s] as a contiguous run. *)
Fixpoint includes (s p : string) : bool :=
  if String.prefix p s then true
  else match s with
       | EmptyString => false
       | String _ s' => includes s' p
       end.

(** Truthiness of a [string | undefined] value: [!color] is the negation. *)
Definition truthy (v : option string) : bool :=
  match v with
  | None => false
  | Some s => negb (s =? "")
  end.

(** [v || d] on strings. *)
Definition or_else (v : option string) (d : string) : string :=
  match v with
  | Some s => if s =? "" then d else s
  | None => d
  end.

End JsString.

Import JsString.

(* ================================================================= *)
(** ** types *)

Inductive AchievementCategory := Kms | Leads | Sweeps | RPs | Rides.

Definition category_eqb (a b : AchievementCategory) : bool :=
  match a, b with
  | Kms, Kms | Leads, Leads | Sweeps, Sweeps | RPs, RPs | Rides, Rides => true
  | _, _ => false
  end.

Module Achievement.
Record t := mk {
  id : option string;
  threshold : Z;
  label : string;
  category : AchievementCategory;
  icon : option string
}.
End Achievement.

(** The counters of [User] that the progress cards read. *)
Module User.
Record t := mk {
  id : string;
  name : string;
  totalRides : Z;
  totalKms : Z;
  leads : Z;
  sweeps : Z;
  rps : Z
}.
End User.

(** [ClubSettings] as it exists at run time: the row of [club_settings] and
    the object built from it are cast to the interface unchecked, so every
    field may be absent. *)
Module ClubSettings.
Record t := mk {
  upiId : option string;
  gpayQrUrl : option string;
  annualFee : option Z;
  lifetimeFee : option Z;
  brandName : option string;
  brandSubName : option string;
  logoUrl : option string;
  primaryColor : option string;
  dashboardBg : option string;
  headerBg : option string;
  headerText : option string;
  cardBg : option string;
  cardBorder : option string;
  globalFont : option string;
  headingFont : option string;
  navFont : option string;
  statFont : option string;
  buttonFont : option string;
  inputFont : option string;
  achievementFont : option string;
  cardHeaderFont : option string;
  sectionHeaderFont : option string;
  buttonBg : option string;
  buttonText : option string;
  statColor : option string;
  achievements : option (list Achievement.t)
}.
End ClubSettings.

Inductive RideStatus := upcoming | completed.

Definition status_eqb (a b : RideStatus) : bool :=
  match a, b with
  | upcoming, upcoming | completed, completed => true
  | _, _ => false
  end.

(** [Omit<Ride, 'id' | 'status'>]. *)
Module RideData.
Record t := mk {
  title : string;
  summary : string;
  notes : option string;
  date : string;
  startTime : string;
  endTime : string;
  durationDays : Z;
  terrainTypes : list string;
  customTerrain : option string;
  marshalId : string;
  mapLink : string;
  feedbackLink : option string;
  driveLink : option string
}.
End RideData.

Module Ride.
Record t := mk {
  id : string;
  title : string;
  summary : string;
  notes : option string;
  date : string;
  startTime : string;
  endTime : string;
  durationDays : Z;
  terrainTypes : list string;
  customTerrain : option string;
  marshalId : string;
  mapLink : string;
  status : RideStatus;
  feedbackLink : option string;
  driveLink : option string
}.
End Ride.

(* ================================================================= *)
(** ** The backend client, as far as the two calls below use it *)

Record PostgrestError := { message : string }.

(** The [{ data, error }] pair a query resolves to. *)
Record Response (A : Type) := mkResponse {
  data : option A;
  error : option PostgrestError
}.
Arguments mkResponse {A} _ _.
Arguments data {A} _.
Arguments error {A} _.

(** A settled promise. *)
Inductive Promise (A : Type) :=
  | Resolved (a : A)
  | Rejected (e : PostgrestError).
Arguments Resolved {A} _.
Arguments Rejected {A} _.

(** The object literal [{ ...rideData, status }] handed to [insert]: the
    fields of [rideData] and a [status]; it has no [id]. *)
Module NewRide.
Record t := mk {
  rideData : RideData.t;
  status : RideStatus
}.
End NewRide.

(** What the hosted [rides] table does with an insert: it refuses with an
    error, or it stores the row under an id of its choosing. *)
Inductive InsertAnswer :=
  | Refuse (e : PostgrestError)
  | Accept (id : string).

Definition stored_row (id : string) (n : NewRide.t) : Ride.t :=
  let d := NewRide.rideData n in
  {| Ride.id := id;
     Ride.title := RideData.title d;
     Ride.summary := RideData.summary d;
     Ride.notes := RideData.notes d;
     Ride.date := RideData.date d;
     Ride.startTime := RideData.startTime d;
     Ride.endTime := RideData.endTime d;
     Ride.durationDays := RideData.durationDays d;
     Ride.terrainTypes := RideData.terrainTypes d;
     Ride.customTerrain := RideData.customTerrain d;
     Ride.marshalId := RideData.marshalId d;
     Ride.mapLink := RideData.mapLink d;
     Ride.status := NewRide.status n;
     Ride.feedbackLink := RideData.feedbackLink d;
     Ride.driveLink := RideData.driveLink d |}.

(** [from('rides').insert([row]).select().maybeSingle()]: the table after the
    call and the response.  A refused insert leaves the table as it was; an
    accepted one appends the row and hands it back as [data]. *)
Definition rides_insert (table : list Ride.t) (ans : InsertAnswer)
    (row : NewRide.t) : list Ride.t * Response Ride.t :=
  match ans with
  | Refuse e => (table, mkResponse None (Some e))
  | Accept id =>
      let r := stored_row id row in
      ((table ++ [r])%list, mkResponse (Some r) None)
  end.

(* ================================================================= *)
(** ** types and backend: members, participants, deletion *)

Module ClubRole.
Inductive t := RIDER | MARSHAL.

Definition eqb (a b : t) : bool :=
  match a, b with
  | RIDER, RIDER | MARSHAL, MARSHAL => true
  | _, _ => false
  end.
End ClubRole.

Module RideRole.
Inductive t := LEAD | SWEEP | RP | RIDER.

Definition eqb (a b : t) : bool :=
  match a, b with
  | LEAD, LEAD | SWEEP, SWEEP | RP, RP | RIDER, RIDER => true
  | _, _ => false
  end.
End RideRole.

Module RideParticipant.
Record t := mk {
  rideId : string;
  userId : string;
  role : RideRole.t;
  attended : bool
}.
End RideParticipant.

(** [Omit<User, 'totalRides' | 'leads' | 'sweeps' | 'rps' | 'totalKms'>], with
    the fields that [User.t] keeps. *)
Module RiderData.
Record t := mk {
  id : string;
  name : string
}.
End RiderData.

(** A thrown [Error] object. *)
Record JsError := { error_message : string }.

(** The outcome of a call that returns or throws [new Error(...)]. *)
Inductive Attempt (A : Type) :=
  | Returned (a : A)
  | Thrown (e : JsError).
Arguments Returned {A} _.
Arguments Thrown {A} _.

(** [{ success: true }]. *)
Record Success := { success : bool }.

(** [from('users').insert([row]).select().maybeSingle()]: a refused insert
    leaves the table as it was, an accepted one appends the row and hands it
    back. *)
Definition users_insert (table : list User.t) (refused : option PostgrestError)
    (row : User.t) : list User.t * Response User.t :=
  match refused with
  | Some e => (table, mkResponse None (Some e))
  | None => ((table ++ [row])%list, mkResponse (Some row) None)
  end.

(** [from('rides').delete().eq('id', rideId)]: the table after the call and
    the [error] of the response. *)
Definition rides_delete (table : list Ride.t) (refused : option PostgrestError)
    (rideId : string) : list Ride.t * option PostgrestError :=
  match refused with
  | Some e => (table, Some e)
  | None => (filter (fun r => negb (Ride.id r =? rideId)) table, None)
  end.

(** [from('ride_participants').select('*')], with [.eq('rideId', rideId)]
    when [eq_rideId] is given. *)
Definition participants_select (table : list RideParticipant.t)
    (refused : option PostgrestError) (eq_rideId : option string)
  : Response (list RideParticipant.t) :=
  match refused with
  | Some e => mkResponse None (Some e)
  | None =>
      mkResponse
        (Some match eq_rideId with
              | Some i => filter (fun p => RideParticipant.rideId p =? i) table
              | None => table
              end)
        None
  end.

(* ================================================================= *)
(** ** services/api *)

Module api.

Definition BRAND_GREEN : string := "#a4e636".
Definition LEGACY_RED_HEX : string := "#e11d47".

(** The condition of the [if] in [sanitizeColor], on the trimmed and
    lower-cased colour [c]. *)
Definition legacy_check (c : string) : bool :=
  (c =? toLowerCase LEGACY_RED_HEX)
  || (c =? "#e11d47")
  || (c =? "rgb(225, 29, 71)")
  || includes c "225, 29, 71"
  || (c =? "#ff0000")
  || (c =? "red").

Definition sanitizeColor (color : option string) : string :=
  match color with
  | None => BRAND_GREEN
  | Some s =>
      if s =? "" then BRAND_GREEN
      else
        let c := toLowerCase (trim s) in
        if legacy_check c then BRAND_GREEN else s
  end.

Definition ach (t : Z) (l : string) (c : AchievementCategory) : Achievement.t :=
  {| Achievement.id := None; Achievement.threshold := t;
     Achievement.label := l; Achievement.category := c;
     Achievement.icon := None |}.

(** The [defaults] object of [getClubSettings]. *)
Definition defaults : ClubSettings.t :=
  {| ClubSettings.brandName := Some "BIKERS";
     ClubSettings.brandSubName := Some "CREED";
     ClubSettings.primaryColor := Some BRAND_GREEN;
     ClubSettings.logoUrl := Some "";
     ClubSettings.achievements := Some
       [ ach 1000 "Iron Butt" Kms;
         ach 5 "First Lead" Leads;
         ach 10 "Road Master" Leads;
         ach 10 "Guardian" Sweeps;
         ach 5 "Tactician" RPs;
         ach 25 "Veteran" Rides ];
     ClubSettings.upiId := Some "";
     ClubSettings.gpayQrUrl := Some "";
     ClubSettings.annualFee := Some 0%Z;
     ClubSettings.lifetimeFee := Some 0%Z;
     ClubSettings.dashboardBg := Some "#000000";
     ClubSettings.headerBg := Some "#000000";
     ClubSettings.headerText := Some "#ffffff";
     ClubSettings.cardBg := Some "#0a0a0a";
     ClubSettings.cardBorder := Some "#262626";
     ClubSettings.globalFont := Some "Montserrat";
     ClubSettings.headingFont := Some "Bebas Neue";
     ClubSettings.navFont := Some "Bebas Neue";
     ClubSettings.statFont := Some "Bebas Neue";
     ClubSettings.buttonFont := Some "Bebas Neue";
     ClubSettings.inputFont := Some "Montserrat";
     ClubSettings.achievementFont := Some "Bebas Neue";
     ClubSettings.cardHeaderFont := Some "Bebas Neue";
     ClubSettings.sectionHeaderFont := Some "Bebas Neue";
     ClubSettings.buttonBg := Some BRAND_GREEN;
     ClubSettings.buttonText := Some "#000000";
     ClubSettings.statColor := Some BRAND_GREEN |}.

(** [v || d] where both sides are font or colour fields. *)
Definition or_field (v d : option string) : option string :=
  if truthy v then v else d.

(** [getClubSettings], from the response of
    [from('club_settings').select('*').maybeSingle()]. *)
Definition getClubSettings (res : Response ClubSettings.t)
  : Promise ClubSettings.t :=
  match error res, data res with
  | Some _, _ | _, None => Resolved defaults
  | None, Some d =>
      Resolved
        {| (* ...data *)
           ClubSettings.upiId := ClubSettings.upiId d;
           ClubSettings.gpayQrUrl := ClubSettings.gpayQrUrl d;
           ClubSettings.annualFee := ClubSettings.annualFee d;
           ClubSettings.lifetimeFee := ClubSettings.lifetimeFee d;
           ClubSettings.brandName := ClubSettings.brandName d;
           ClubSettings.brandSubName := ClubSettings.brandSubName d;
           ClubSettings.logoUrl := ClubSettings.logoUrl d;
           ClubSettings.headerText := ClubSettings.headerText d;
           ClubSettings.cardBorder := ClubSettings.cardBorder d;
           ClubSettings.buttonText := ClubSettings.buttonText d;
           (* the fields written after the spread *)
           ClubSettings.primaryColor :=
             Some (sanitizeColor (ClubSettings.primaryColor d));
           ClubSettings.buttonBg :=
             Some (sanitizeColor (ClubSettings.buttonBg d));
           ClubSettings.statColor :=
             Some (sanitizeColor (ClubSettings.statColor d));
           ClubSettings.dashboardBg :=
             Some (or_else (ClubSettings.dashboardBg d) "#000000");
           ClubSettings.cardBg :=
             Some (or_else (ClubSettings.cardBg d) "#0a0a0a");
           ClubSettings.headerBg :=
             Some (or_else (ClubSettings.headerBg d) "#000000");
           ClubSettings.achievements :=
             match ClubSettings.achievements d with
             | Some l => Some l
             | None => ClubSettings.achievements defaults
             end;
           ClubSettings.globalFont :=
             or_field (ClubSettings.globalFont d) (ClubSettings.globalFont defaults);
           ClubSettings.headingFont :=
             or_field (ClubSettings.headingFont d) (ClubSettings.headingFont defaults);
           ClubSettings.navFont :=
             or_field (ClubSettings.navFont d) (ClubSettings.navFont defaults);
           ClubSettings.statFont :=
             or_field (ClubSettings.statFont d) (ClubSettings.statFont defaults);
           ClubSettings.buttonFont :=
             or_field (ClubSettings.buttonFont d) (ClubSettings.buttonFont defaults);
           ClubSettings.inputFont :=
             or_field (ClubSettings.inputFont d) (ClubSettings.inputFont defaults);
           ClubSettings.achievementFont :=
             or_field (ClubSettings.achievementFont d)
                      (ClubSettings.achievementFont defaults);
           ClubSettings.cardHeaderFont :=
             or_field (ClubSettings.cardHeaderFont d)
                      (ClubSettings.cardHeaderFont defaults);
           ClubSettings.sectionHeaderFont :=
             or_field (ClubSettings.sectionHeaderFont d)
                      (ClubSettings.sectionHeaderFont defaults) |}
  end.

(** [createRide], threading the [rides] table: the table after the call and
    the settled promise. *)
Definition createRide (table : list Ride.t) (ans : InsertAnswer)
    (rideData : RideData.t) : list Ride.t * Promise (option Ride.t) :=
  let '(table', res) :=
    rides_insert table ans
      {| NewRide.rideData := rideData; NewRide.status := upcoming |} in
  match error res with
  | Some e => (table', Rejected e)
  | None => (table', Resolved (data res))
  end.

(** [login], from the response of the query on [users] by id and
    password. *)
Definition login (res : Response User.t) : Attempt User.t :=
  match error res with
  | Some e =>
      Thrown {| error_message := "Authentication failed: " ++ message e |}
  | None =>
      match data res with
      | None =>
          Thrown {| error_message := "Authentication failed: Invalid Credentials" |}
      | Some u => Returned u
      end
  end.

(** [addRider], threading the [users] table. *)
Definition addRider (table : list User.t) (refused : option PostgrestError)
    (riderData : RiderData.t) : list User.t * Promise (option User.t) :=
  let '(table', res) :=
    users_insert table refused
      {| User.id := RiderData.id riderData;
         User.name := RiderData.name riderData;
         User.totalRides := 0; User.totalKms := 0;
         User.leads := 0; User.sweeps := 0; User.rps := 0 |} in
  match error res with
  | Some e => (table', Rejected e)
  | None => (table', Resolved (data res))
  end.

(** [getRideParticipants(rideId?)]. *)
Definition getRideParticipants (table : list RideParticipant.t)
    (refused : option PostgrestError) (rideId : option string)
  : Promise (list RideParticipant.t) :=
  let res :=
    participants_select table refused
      (if truthy rideId then rideId else None) in
  match error res with
  | Some e => Rejected e
  | None => Resolved match data res with Some l => l | None => [] end
  end.

(** [deleteRide], threading the [rides] table. *)
Definition deleteRide (table : list Ride.t) (refused : option PostgrestError)
    (rideId : string) : list Ride.t * Promise Success :=
  let '(table', err) := rides_delete table refused rideId in
  match err with
  | Some e => (table', Rejected e)
  | None => (table', Resolved {| success := true |})
  end.

End api.

(** [rides.filter(r => r.status === 'upcoming')], the list behind the
    upcoming-rides view of [App.tsx]. *)
Definition upcomingRides (rides : list Ride.t) : list Ride.t :=
  filter (fun r => status_eqb (Ride.status r) upcoming) rides.

(* ================================================================= *)
(** ** JavaScript numbers of the progress formula *)

Inductive jsnum :=
  | Fin (q : Q)
  | PosInf
  | NegInf
  | NaN.

Definition of_Z (z : Z) : jsnum := Fin (inject_Z z).

(** [x / y].  Zero carries no sign: the divisor of the progress formula is a
    difference of two integers, which is never the negative zero. *)
Definition jdiv (x y : jsnum) : jsnum :=
  match x, y with
  | NaN, _ | _, NaN => NaN
  | Fin a, Fin b =>
      match (b ?= 0)%Q with
      | Eq => match (a ?= 0)%Q with
              | Eq => NaN
              | Gt => PosInf
              | Lt => NegInf
              end
      | _ => Fin (Qred (a / b))
      end
  | Fin _, _ => Fin 0
  | PosInf, Fin b => if Qle_bool 0 b then PosInf else NegInf
  | NegInf, Fin b => if Qle_bool 0 b then NegInf else PosInf
  | _, _ => NaN
  end.

(** [x * y]. *)
Definition jmul (x y : jsnum) : jsnum :=
  let inf_times (pos : bool) (b : Q) :=
    match (b ?= 0)%Q with
    | Eq => NaN
    | Gt => if pos then PosInf else NegInf
    | Lt => if pos then NegInf else PosInf
    end in
  match x, y with
  | NaN, _ | _, NaN => NaN
  | Fin a, Fin b => Fin (Qred (a * b))
  | PosInf, Fin b | Fin b, PosInf => inf_times true b
  | NegInf, Fin b | Fin b, NegInf => inf_times false b
  | PosInf, PosInf | NegInf, NegInf => PosInf
  | _, _ => NegInf
  end.

(** [Math.max(x, y)]. *)
Definition Math_max (x y : jsnum) : jsnum :=
  match x, y with
  | NaN, _ | _, NaN => NaN
  | PosInf, _ | _, PosInf => PosInf
  | NegInf, z | z, NegInf => z
  | Fin a, Fin b => if Qle_bool a b then Fin b else Fin a
  end.

(** [Math.min(x, y)]. *)
Definition Math_min (x y : jsnum) : jsnum :=
  match x, y with
  | NaN, _ | _, NaN => NaN
  | NegInf, _ | _, NegInf => NegInf
  | PosInf, z | z, PosInf => z
  | Fin a, Fin b => if Qle_bool a b then Fin a else Fin b
  end.

(** The same formula, unclamped, in IEEE 754 binary64, for cross-checking
    the scenarios. *)
Definition double (z : Z) : spec_float := binary_normalize 53 1024 z 0 false.

Definition raw_progress_double (catValue prevThreshold next : Z) : spec_float :=
  SFmul 53 1024
    (SFdiv 53 1024
       (SFsub 53 1024 (double catValue) (double prevThreshold))
       (SFsub 53 1024 (double next) (double prevThreshold)))
    (double 100).

(* ================================================================= *)
(** ** App.tsx: AchievementProgress *)

(** [Array.prototype.sort] is stable; with a consistent comparator its result
    is the one stable insertion computes. *)
Section Sort.
Context {A : Type} (cmp : A -> A -> Z).

Fixpoint insert_sorted (a : A) (l : list A) : list A :=
  match l with
  | [] => [a]
  | b :: l' => if (cmp a b <=? 0)%Z then a :: l else b :: insert_sorted a l'
  end.

Definition sort (l : list A) : list A := fold_right insert_sorted [] l.
End Sort.

(** [v || 0] on a possibly missing number. *)
Definition or_zero (v : option Z) : Z :=
  match v with
  | Some z => if (z =? 0)%Z then 0%Z else z
  | None => 0%Z
  end.

(** [l.slice(-1)[0]]. *)
Definition last_opt {A : Type} (l : list A) : option A :=
  match l with
  | [] => None
  | a :: l' => Some (last l' a)
  end.

(** What one card of the grid is built from. *)
Module CategoryCard.
Record t := mk {
  category : AchievementCategory;
  catValue : Z;
  nextAchievement : Achievement.t;
  prevThreshold : Z;
  progress : jsnum;
  isMaxed : bool
}.

(** The title: [isMaxed ? 'MAXED OUT' : nextAchievement.label]. *)
Definition title (c : t) : string :=
  if isMaxed c then "MAXED OUT" else Achievement.label (nextAchievement c).

(** The width of the bar, in percent: [isMaxed ? 100 : progress]. *)
Definition width (c : t) : jsnum :=
  if isMaxed c then of_Z 100 else progress c.
End CategoryCard.

Definition categories : list AchievementCategory :=
  [Kms; Leads; Sweeps; RPs; Rides].

Definition getStatValue (user : User.t) (category : AchievementCategory) : Z :=
  match category with
  | Kms => User.totalKms user
  | Leads => User.leads user
  | Sweeps => User.sweeps user
  | RPs => User.rps user
  | Rides => User.totalRides user
  end.

Definition compare_threshold (a b : Achievement.t) : Z :=
  (Achievement.threshold a - Achievement.threshold b)%Z.

(** [settings.achievements.filter(...).sort(...)]. *)
Definition catAchievements (achievements : list Achievement.t)
    (category : AchievementCategory) : list Achievement.t :=
  sort compare_threshold
    (filter (fun a => category_eqb (Achievement.category a) category)
            achievements).

(** The progress formula of a card. *)
Definition progress_of (catValue prevThreshold next : Z) : jsnum :=
  Math_min (of_Z 100)
    (Math_max (of_Z 0)
       (jmul (jdiv (of_Z (catValue - prevThreshold))
                   (of_Z (next - prevThreshold)))
             (of_Z 100))).

(** The callback of [categories.map]: [None] is the [null] of a category
    without achievements. *)
Definition card (user : User.t) (achievements : list Achievement.t)
    (category : AchievementCategory) : option CategoryCard.t :=
  let catValue := getStatValue user category in
  let sorted := catAchievements achievements category in
  match sorted with
  | [] => None
  | first :: _ =>
      let highest := last sorted first in
      let nextAchievement :=
        match find (fun a => (Achievement.threshold a >? catValue)%Z) sorted with
        | Some a => a
        | None => highest
        end in
      let prevThreshold :=
        or_zero
          (option_map Achievement.threshold
             (last_opt
                (filter (fun a => (Achievement.threshold a <=? catValue)%Z)
                        sorted))) in
      let progress :=
        progress_of catValue prevThreshold
                    (Achievement.threshold nextAchievement) in
      let isMaxed := (catValue >=? Achievement.threshold highest)%Z in
      Some {| CategoryCard.category := category;
              CategoryCard.catValue := catValue;
              CategoryCard.nextAchievement := nextAchievement;
              CategoryCard.prevThreshold := prevThreshold;
              CategoryCard.progress := progress;
              CategoryCard.isMaxed := isMaxed |}
  end.

(** The component: [None] when it renders nothing at all, else the grid, one
    slot per category in the order of [categories]. *)
Definition AchievementProgress (user : User.t) (settings : option ClubSettings.t)
  : option (list (option CategoryCard.t)) :=
  match settings with
  | None => None
  | Some s =>
      match ClubSettings.achievements s with
      | None => None
      | Some achievements => Some (map (card user achievements) categories)
      end
  end.

(** The cards that are displayed: the slots that are not [null]. *)
Definition cards (user : User.t) (settings : option ClubSettings.t)
  : list CategoryCard.t :=
  match AchievementProgress user settings with
  | None => []
  | Some grid =>
      flat_map (fun slot => match slot with Some c => [c] | None => [] end) grid
  end.

(* ================================================================= *)
(** ** App.tsx: the ride form *)

(** [l.includes(x)] on an array of strings. *)
Definition Array_includes (l : list string) (x : string) : bool :=
  existsb (fun t => t =? x) l.

(** [{ ...formData, terrainTypes: updated }]. *)
Definition with_terrainTypes (formData : RideData.t) (updated : list string)
  : RideData.t :=
  {| RideData.title := RideData.title formData;
     RideData.summary := RideData.summary formData;
     RideData.notes := RideData.notes formData;
     RideData.date := RideData.date formData;
     RideData.startTime := RideData.startTime formData;
     RideData.endTime := RideData.endTime formData;
     RideData.durationDays := RideData.durationDays formData;
     RideData.terrainTypes := updated;
     RideData.customTerrain := RideData.customTerrain formData;
     RideData.marshalId := RideData.marshalId formData;
     RideData.mapLink := RideData.mapLink formData;
     RideData.feedbackLink := RideData.feedbackLink formData;
     RideData.driveLink := RideData.driveLink formData |}.

(** [handleTerrainToggle] of the ride forms: the form data after the
    click. *)
Definition handleTerrainToggle (formData : RideData.t) (terrain : string)
  : RideData.t :=
  let current := RideData.terrainTypes formData in
  let updated :=
    if Array_includes current terrain
    then filter (fun t => negb (t =? terrain)) current
    else (current ++ [terrain])%list in
  with_terrainTypes formData updated.

(** What [handleCreate] leaves on the screen. *)
Inductive CreateOutcome :=
  | AlertRequired
  | ShowSuccess
  | AlertFailed.

(** [handleCreate] of [CreateRideModal], threading the [rides] table. *)
Definition handleCreate (table : list Ride.t) (ans : InsertAnswer)
    (formData : RideData.t) : list Ride.t * CreateOutcome :=
  if (RideData.title formData =? "") || (RideData.summary formData =? "")
  then (table, AlertRequired)
  else
    match api.createRide table ans formData with
    | (table', Resolved _) => (table', ShowSuccess)
    | (table', Rejected _) => (table', AlertFailed)
    end.

(** [rides.filter(ride => ride.terrainTypes?.includes(terrainFilter))], or
    all rides without a filter (MarshalDashboard). *)
Definition filteredRides (terrainFilter : option string) (rides : list Ride.t)
  : list Ride.t :=
  match terrainFilter with
  | Some f =>
      if f =? "" then rides
      else filter (fun ride => Array_includes (Ride.terrainTypes ride) f) rides
  | None => rides
  end.

(* ================================================================= *)
(** ** App.tsx: AchievementEditor *)

(** [l.filter((x, i) => f(x, i))], counting from [i]. *)
Fixpoint filter_index {A : Type} (f : A -> nat -> bool) (i : nat) (l : list A)
  : list A :=
  match l with
  | [] => []
  | a :: l' =>
      if f a i then a :: filter_index f (S i) l' else filter_index f (S i) l'
  end.

(** [l.map((x, i) => f(x, i))], counting from [i]. *)
Fixpoint map_index {A B : Type} (f : A -> nat -> B) (i : nat) (l : list A)
  : list B :=
  match l with
  | [] => []
  | a :: l' => f a i :: map_index f (S i) l'
  end.

Definition addItem (items : list Achievement.t) : list Achievement.t :=
  let newItem :=
    {| Achievement.id := None; Achievement.threshold := 0;
       Achievement.label := "New Honor"; Achievement.category := Kms;
       Achievement.icon := None |} in
  (items ++ [newItem])%list.

Definition removeItem (items : list Achievement.t) (index : nat)
  : list Achievement.t :=
  filter_index (fun _ i => negb (i =? index)%nat) 0 items.

(** A [field] of [keyof Achievement] with the [value] written to it. *)
Inductive FieldValue :=
  | set_id (v : option string)
  | set_threshold (v : Z)
  | set_label (v : string)
  | set_category (v : AchievementCategory)
  | set_icon (v : option string).

(** [{ ...item, [field]: value }]. *)
Definition with_field (item : Achievement.t) (fv : FieldValue) : Achievement.t :=
  match fv with
  | set_id v =>
      Achievement.mk v (Achievement.threshold item) (Achievement.label item)
        (Achievement.category item) (Achievement.icon item)
  | set_threshold v =>
      Achievement.mk (Achievement.id item) v (Achievement.label item)
        (Achievement.category item) (Achievement.icon item)
  | set_label v =>
      Achievement.mk (Achievement.id item) (Achievement.threshold item) v
        (Achievement.category item) (Achievement.icon item)
  | set_category v =>
      Achievement.mk (Achievement.id item) (Achievement.threshold item)
        (Achievement.label item) v (Achievement.icon item)
  | set_icon v =>
      Achievement.mk (Achievement.id item) (Achievement.threshold item)
        (Achievement.label item) (Achievement.category item) v
  end.

Definition updateItem (items : list Achievement.t) (index : nat)
    (fv : FieldValue) : list Achievement.t :=
  map_index (fun item i => if (i =? index)%nat then with_field item fv else item)
            0 items.

(* ================================================================= *)
(** ** App.tsx: branding *)

Definition BRAND_COLOR : string := "#a4e636".
Definition LEGACY_RED : string := "#e11d47".

(** [s.replace(/\s+/g, rep)]: every maximal run of white space becomes
    [rep].  [in_run] tells that the code unit before was white space. *)
Fixpoint replace_runs (rep : string) (in_run : bool) (s : string) : string :=
  match s with
  | EmptyString => EmptyString
  | String c s' =>
      if is_white_space c
      then if in_run then replace_runs rep true s'
           else rep ++ replace_runs rep true s'
      else String c (replace_runs rep false s')
  end.

Definition replace_white_space (s rep : string) : string :=
  replace_runs rep false s.

(** [Array.from(new Set(l))]: the first occurrence of each element, in
    order.  [seen] holds what the set has. *)
Fixpoint add_all (seen : list string) (l : list string) : list string :=
  match l with
  | [] => []
  | x :: l' =>
      if Array_includes seen x then add_all seen l'
      else x :: add_all (x :: seen) l'
  end.

Definition Array_from_Set (l : list string) : list string := add_all [] l.

Definition newline : string := String "010"%char EmptyString.

(** What [BrandingStyles] puts in its [style] element: the font imports and
    the custom properties of [:root] (the rest of the sheet is constant). *)
Module Branding.
Record t := mk {
  fonts : list string;
  fontImports : string;
  root : list (string * string)
}.
End Branding.

Definition font_import (f : string) : string :=
  "@import url('https://fonts.googleapis.com/css2?family="
  ++ replace_white_space f "+" ++ ":wght@400;700;900&display=swap');".

Definition font_value (f : string) : string := "'" ++ f ++ "', sans-serif".

Definition BrandingStyles (settings : option ClubSettings.t)
  : option Branding.t :=
  match settings with
  | None => None
  | Some s =>
      let fonts := Array_from_Set
        [ or_else (ClubSettings.globalFont s) "Montserrat";
          or_else (ClubSettings.headingFont s) "Bebas Neue";
          or_else (ClubSettings.navFont s) "Bebas Neue";
          or_else (ClubSettings.statFont s) "Bebas Neue";
          or_else (ClubSettings.buttonFont s) "Bebas Neue";
          or_else (ClubSettings.inputFont s) "Montserrat";
          or_else (ClubSettings.achievementFont s) "Bebas Neue";
          or_else (ClubSettings.cardHeaderFont s) "Bebas Neue";
          or_else (ClubSettings.sectionHeaderFont s) "Bebas Neue" ] in
      Some
        {| Branding.fonts := fonts;
           Branding.fontImports := String.concat newline (map font_import fonts);
           Branding.root :=
             [ ("--primary-color", or_else (ClubSettings.primaryColor s) BRAND_COLOR);
               ("--dashboard-bg", or_else (ClubSettings.dashboardBg s) "#000000");
               ("--header-bg", or_else (ClubSettings.headerBg s) "#000000");
               ("--header-text", or_else (ClubSettings.headerText s) "#ffffff");
               ("--card-bg", or_else (ClubSettings.cardBg s) "#0a0a0a");
               ("--card-border", or_else (ClubSettings.cardBorder s) "#222222");
               ("--global-font",
                 font_value (or_else (ClubSettings.globalFont s) "Montserrat"));
               ("--heading-font",
                 font_value (or_else (ClubSettings.headingFont s) "Bebas Neue"));
               ("--nav-font",
                 font_value (or_else (ClubSettings.navFont s) "Bebas Neue"));
               ("--stat-font",
                 font_value (or_else (ClubSettings.statFont s) "Bebas Neue"));
               ("--button-font",
                 font_value (or_else (ClubSettings.buttonFont s) "Bebas Neue"));
               ("--input-font",
                 font_value (or_else (ClubSettings.inputFont s) "Montserrat"));
               ("--achievement-font",
                 font_value (or_else (ClubSettings.achievementFont s) "Bebas Neue"));
               ("--card-header-font",
                 font_value (or_else (ClubSettings.cardHeaderFont s) "Bebas Neue"));
               ("--section-header-font",
                 font_value (or_else (ClubSettings.sectionHeaderFont s) "Bebas Neue"));
               ("--button-bg", or_else (ClubSettings.buttonBg s) BRAND_COLOR);
               ("--button-text", or_else (ClubSettings.buttonText s) "#000000");
               ("--stat-color", or_else (ClubSettings.statColor s) BRAND_COLOR) ] |}
  end.

(** The value of a custom property of [:root]. *)
Fixpoint css_var (name : string) (root : list (string * string))
  : option string :=
  match root with
  | [] => None
  | (n, v) :: root' => if n =? name then Some v else css_var name root'
  end.

(** What [BrandingLogo] draws: the uploaded image, or the club mark filled
    with a colour. *)
Inductive Logo :=
  | LogoImage (src : string)
  | LogoMark (primaryColor : string).

Definition BrandingLogo (settings : option ClubSettings.t) : Logo :=
  let logoUrl :=
    match settings with Some s => ClubSettings.logoUrl s | None => None end in
  if truthy logoUrl then LogoImage (or_else logoUrl "")
  else
    let primaryColor :=
      or_else
        match settings with Some s => ClubSettings.primaryColor s | None => None end
        BRAND_COLOR in
    LogoMark (if toLowerCase primaryColor =? toLowerCase LEGACY_RED
              then BRAND_COLOR else primaryColor).

(* ================================================================= *)
(** ** App.tsx: members, roster and login *)

(** [filteredMembers] of [MemberManagement]. *)
Definition filteredMembers (members : list User.t) (search : string)
  : list User.t :=
  filter (fun m =>
            includes (toLowerCase (User.name m)) (toLowerCase search)
            || includes (User.id m) search)
         members.

(** The state of [RideDetailsModal] that the attendance handlers touch. *)
Module Roster.
Record t := mk {
  participants : list RideParticipant.t;
  pendingAttendance : option RideParticipant.t
}.
End Roster.

(** [{ ...p, attended: !p.attended }]. *)
Definition flip_attended (p : RideParticipant.t) : RideParticipant.t :=
  {| RideParticipant.rideId := RideParticipant.rideId p;
     RideParticipant.userId := RideParticipant.userId p;
     RideParticipant.role := RideParticipant.role p;
     RideParticipant.attended := negb (RideParticipant.attended p) |}.

(** [toggleAttendance], for a viewer of club role [clubRole]. *)
Definition toggleAttendance (clubRole : ClubRole.t) (st : Roster.t)
    (p : RideParticipant.t) : Roster.t :=
  if negb (ClubRole.eqb clubRole ClubRole.MARSHAL) then st
  else {| Roster.participants := Roster.participants st;
          Roster.pendingAttendance := Some (flip_attended p) |}.

Definition handleConfirmAttendance (st : Roster.t) : Roster.t :=
  match Roster.pendingAttendance st with
  | None => st
  | Some pending =>
      {| Roster.participants :=
           map (fun p =>
                  if RideParticipant.userId p =? RideParticipant.userId pending
                  then pending else p)
               (Roster.participants st);
         Roster.pendingAttendance := None |}
  end.

(** The four lists of the briefing. *)
Definition with_role (r : RideRole.t) (participants : list RideParticipant.t)
  : list RideParticipant.t :=
  filter (fun p => RideRole.eqb (RideParticipant.role p) r) participants.

Definition getMarshalName (users : list User.t) (userId : string) : string :=
  or_else (option_map User.name (find (fun u => User.id u =? userId) users))
          "Unknown".

(** The state of [App] that [handleLogin] writes. *)
Module LoginState.
Record t := mk {
  error : string;
  tempUser : option User.t;
  showEntrySequence : bool
}.
End LoginState.

(** [handleLogin]: [users_query id password] is the answer of the backend to
    the query [login] sends. *)
Definition handleLogin (users_query : string -> string -> Response User.t)
    (st : LoginState.t) (phone password : string) : LoginState.t :=
  let cleanPhone := replace_white_space (trim phone) "" in
  let cleanPass := trim password in
  let attempt :=
    if (cleanPhone =? "") || (cleanPass =? "")
    then Thrown {| error_message := "Credentials required." |}
    else api.login (users_query cleanPhone cleanPass) in
  match attempt with
  | Returned loggedInUser =>
      {| LoginState.error := "";
         LoginState.tempUser := Some loggedInUser;
         LoginState.showEntrySequence := true |}
  | Thrown err =>
      {| LoginState.error := error_message err;
         LoginState.tempUser := LoginState.tempUser st;
         LoginState.showEntrySequence := LoginState.showEntrySequence st |}
  end.

(* ================================================================= *)
(** ** Vocabulary of the specification *)

(** The textual representations of the retired red that the specification
    names, read literally. *)
Definition legacy_red_repr (c : string) : Prop :=
  c = "#e11d47"
  \/ c = "rgb(225, 29, 71)"
  \/ (exists a b, c = a ++ "225, 29, 71" ++ b)
  \/ c = "#ff0000"
  \/ c = "red".

(** A colour that is one of them up to letter case. *)
Definition legacy_ignoring_case (s : string) : Prop :=
  legacy_red_repr (toLowerCase s).

(** A colour that is one of them up to letter case and surrounding white
    space. *)
Definition is_legacy_red (s : string) : Prop :=
  legacy_red_repr (toLowerCase (trim s)).

(** The colour fields of a settings record that the specification's invariant
    lists. *)
Definition color_fields (s : ClubSettings.t) : list (option string) :=
  [ ClubSettings.primaryColor s; ClubSettings.buttonBg s;
    ClubSettings.statColor s; ClubSettings.dashboardBg s;
    ClubSettings.headerBg s; ClubSettings.headerText s;
    ClubSettings.cardBg s; ClubSettings.cardBorder s ].

(** The three brand-identity colours. *)
Definition brand_color_fields (s : ClubSettings.t) : list (option string) :=
  [ ClubSettings.primaryColor s; ClubSettings.buttonBg s;
    ClubSettings.statColor s ].

(** A number in the interval [0, 100]. *)
Definition percentage (x : jsnum) : Prop :=
  exists q : Q, x = Fin q /\ (0 <= q)%Q /\ (q <= 100)%Q.

(** Ascending order of thresholds. *)
Definition le_threshold (a b : Achievement.t) : Prop :=
  (Achievement.threshold a <= Achievement.threshold b)%Z.

(** The achievements of a category, in catalogue order. *)
Definition in_category (achievements : list Achievement.t)
    (category : AchievementCategory) : list Achievement.t :=
  filter (fun a => category_eqb (Achievement.category a) category) achievements.

Definition settings_of (achievements : list Achievement.t) : ClubSettings.t :=
  {| ClubSettings.upiId := None; ClubSettings.gpayQrUrl := None;
     ClubSettings.annualFee := None; ClubSettings.lifetimeFee := None;
     ClubSettings.brandName := None; ClubSettings.brandSubName := None;
     ClubSettings.logoUrl := None; ClubSettings.primaryColor := None;
     ClubSettings.dashboardBg := None; ClubSettings.headerBg := None;
     ClubSettings.headerText := None; ClubSettings.cardBg := None;
     ClubSettings.cardBorder := None; ClubSettings.globalFont := None;
     ClubSettings.headingFont := None; ClubSettings.navFont := None;
     ClubSettings.statFont := None; ClubSettings.buttonFont := None;
     ClubSettings.inputFont := None; ClubSettings.achievementFont := None;
     ClubSettings.cardHeaderFont := None;
     ClubSettings.sectionHeaderFont := None; ClubSettings.buttonBg := None;
     ClubSettings.buttonText := None; ClubSettings.statColor := None;
     ClubSettings.achievements := Some achievements |}.

(* ================================================================= *)
(** ** The scenarios of the specification *)

Definition rider (totalKms leads sweeps rps totalRides : Z) : User.t :=
  {| User.id := "9000000001"; User.name := "Rider";
     User.totalRides := totalRides; User.totalKms := totalKms;
     User.leads := leads; User.sweeps := sweeps; User.rps := rps |}.

Definition iron_butt_catalogue : list Achievement.t :=
  [ api.ach 1000 "Iron Butt" Kms ].

Definition leads_catalogue : list Achievement.t :=
  [ api.ach 5 "First Lead" Leads; api.ach 10 "Road Master" Leads ].

Definition duplicate_catalogue : list Achievement.t :=
  [ api.ach 5 "A" RPs; api.ach 5 "B" RPs ].

(** A stored settings row from before the rebrand. *)
Definition legacy_row : ClubSettings.t :=
  {| ClubSettings.upiId := None; ClubSettings.gpayQrUrl := None;
     ClubSettings.annualFee := None; ClubSettings.lifetimeFee := None;
     ClubSettings.brandName := Some "BIKERS";
     ClubSettings.brandSubName := Some "CREED";
     ClubSettings.logoUrl := None;
     ClubSettings.primaryColor := Some "#E11D47";
     ClubSettings.dashboardBg := Some "#e11d47";
     ClubSettings.headerBg := None;
     ClubSettings.headerText := Some "red";
     ClubSettings.cardBg := None;
     ClubSettings.cardBorder := None; ClubSettings.globalFont := None;
     ClubSettings.headingFont := None; ClubSettings.navFont := None;
     ClubSettings.statFont := None; ClubSettings.buttonFont := None;
     ClubSettings.inputFont := None; ClubSettings.achievementFont := None;
     ClubSettings.cardHeaderFont := None;
     ClubSettings.sectionHeaderFont := None;
     ClubSettings.buttonBg := Some " Red ";
     ClubSettings.buttonText := None;
     ClubSettings.statColor := Some "rgba(225, 29, 71, 0.5)";
     ClubSettings.achievements := None |}.

(* ================================================================= *)
(** ** Vocabulary of the further properties *)

(** No code unit of [s] is white space. *)
Fixpoint no_white_space (s : string) : bool :=
  match s with
  | EmptyString => true
  | String c s' => negb (is_white_space c) && no_white_space s'
  end.

(** Every code unit of [s] is white space. *)
Fixpoint blank (s : string) : bool :=
  match s with
  | EmptyString => true
  | String c s' => is_white_space c && blank s'
  end.

(** Two achievements that differ in their texts only. *)
Definition same_milestone (a b : Achievement.t) : Prop :=
  Achievement.threshold a = Achievement.threshold b
  /\ Achievement.category a = Achievement.category b.

(** The fields of [Achievement] that carry text. *)
Definition is_text (fv : FieldValue) : bool :=
  match fv with
  | set_threshold _ | set_category _ => false
  | set_id _ | set_label _ | set_icon _ => true
  end.

(** The numbers a card shows: category, counter, previous and next
    threshold, progress and whether it is maxed. *)
Definition card_numbers (c : CategoryCard.t)
  : AchievementCategory * Z * Z * Z * jsnum * bool :=
  (CategoryCard.category c, CategoryCard.catValue c,
   CategoryCard.prevThreshold c,
   Achievement.threshold (CategoryCard.nextAchievement c),
   CategoryCard.progress c, CategoryCard.isMaxed c).

(** The numbers of a card, from the counter and the sorted list. *)
Definition next_threshold (catValue : Z) (sorted : list Achievement.t)
    (highest : Achievement.t) : Z :=
  Achievement.threshold
    match find (fun a => (Achievement.threshold a >? catValue)%Z) sorted with
    | Some a => a
    | None => highest
    end.

Definition prev_threshold (catValue : Z) (sorted : list Achievement.t) : Z :=
  or_zero
    (option_map Achievement.threshold
       (last_opt (filter (fun a => (Achievement.threshold a <=? catValue)%Z)
                         sorted))).

Definition numbers_of_sorted (category : AchievementCategory) (catValue : Z)
    (sorted : list Achievement.t)
  : option (AchievementCategory * Z * Z * Z * jsnum * bool) :=
  match sorted with
  | [] => None
  | first :: _ =>
      let highest := last sorted first in
      let p := prev_threshold catValue sorted in
      let n := next_threshold catValue sorted highest in
      Some (category, catValue, p, n, progress_of catValue p n,
            (catValue >=? Achievement.threshold highest)%Z)
  end.

(** The nine fonts [BrandingStyles] asks for, with repetitions. *)
Definition chosen_fonts (s : ClubSettings.t) : list string :=
  [ or_else (ClubSettings.globalFont s) "Montserrat";
    or_else (ClubSettings.headingFont s) "Bebas Neue";
    or_else (ClubSettings.navFont s) "Bebas Neue";
    or_else (ClubSettings.statFont s) "Bebas Neue";
    or_else (ClubSettings.buttonFont s) "Bebas Neue";
    or_else (ClubSettings.inputFont s) "Montserrat";
    or_else (ClubSettings.achievementFont s) "Bebas Neue";
    or_else (ClubSettings.cardHeaderFont s) "Bebas Neue";
    or_else (ClubSettings.sectionHeaderFont s) "Bebas Neue" ].

(** The nine font fields of a settings record. *)
Definition font_fields (s : ClubSettings.t) : list (option string) :=
  [ ClubSettings.globalFont s; ClubSettings.headingFont s;
    ClubSettings.navFont s; ClubSettings.statFont s;
    ClubSettings.buttonFont s; ClubSettings.inputFont s;
    ClubSettings.achievementFont s; ClubSettings.cardHeaderFont s;
    ClubSettings.sectionHeaderFont s ].

(** The credentials [handleLogin] sends. *)
Definition cleanPhone (phone : string) : string :=
  replace_white_space (trim phone) "".

Definition cleanPass (password : string) : string := trim password.

(** A user whose five counters are zero. *)
Definition no_mileage (u : User.t) : Prop :=
  User.totalKms u = 0%Z /\ User.leads u = 0%Z /\ User.sweeps u = 0%Z
  /\ User.rps u = 0%Z /\ User.totalRides u = 0%Z.

(** A form as [CreateRideModal] opens it, up to the date and the marshal. *)
Definition blank_form (date marshalId : string) : RideData.t :=
  {| RideData.title := ""; RideData.summary := ""; RideData.notes := Some "";
     RideData.date := date; RideData.startTime := "06:00";
     RideData.endTime := "18:00"; RideData.durationDays := 1;
     RideData.terrainTypes := []; RideData.customTerrain := None;
     RideData.marshalId := marshalId; RideData.mapLink := "";
     RideData.feedbackLink := None; RideData.driveLink := Some "" |}.

(** A filled form for the scenarios. *)
Definition coast_form : RideData.t :=
  {| RideData.title := "Konkan Run"; RideData.summary := "Two days by the sea";
     RideData.notes := Some ""; RideData.date := "2026-01-10";
     RideData.startTime := "06:00"; RideData.endTime := "18:00";
     RideData.durationDays := 2; RideData.terrainTypes := ["Highway"];
     RideData.customTerrain := None; RideData.marshalId := "9000000001";
     RideData.mapLink := ""; RideData.feedbackLink := None;
     RideData.driveLink := Some "" |}.

(* ================================================================= *)
(** ** Strings: occurrence, trimming and letter case *)

Lemma append_assoc (a b c : string) : (a ++ b) ++ c = a ++ (b ++ c).
Proof. induction a as [|x a IH]; simpl; [reflexivity | now rewrite IH]. Qed.

Lemma append_empty_r (a : string) : a ++ "" = a.
Proof. induction a as [|x a IH]; simpl; [reflexivity | now rewrite IH]. Qed.

Lemma prefix_spec (p s : string) :
  String.prefix p s = true <-> exists t, s = p ++ t.
Proof.
  revert s; induction p as [|c p IH]; intros s.
  - split; [intros _; now exists s | intros _; now destruct s].
  - destruct s as [|d s]; simpl.
    + split; [discriminate | intros [t Ht]; discriminate].
    + destruct (Ascii.ascii_dec c d) as [->|Hne].
      * rewrite IH. split; intros [t Ht]; exists t.
        -- now rewrite Ht.
        -- now injection Ht.
      * split; [discriminate | intros [t Ht]; injection Ht; congruence].
Qed.

Lemma includes_spec (s p : string) :
  includes s p = true <-> exists a b, s = a ++ p ++ b.
Proof.
  induction s as [|c s IH].
  - cbn [includes]. destruct (String.prefix p "") eqn:Hp.
    + apply prefix_spec in Hp. destruct Hp as [t Ht].
      split; [intros _; exists "", t; exact Ht | reflexivity].
    + split; [discriminate|].
      intros [a [b Hab]]. destruct a; [|discriminate].
      assert (String.prefix p "" = true) by (apply prefix_spec; now exists b).
      congruence.
  - cbn [includes]. destruct (String.prefix p (String c s)) eqn:Hp.
    + apply prefix_spec in Hp. destruct Hp as [t Ht].
      split; [intros _; exists "", t; exact Ht | reflexivity].
    + rewrite IH. split.
      * intros [a [b Hab]]. exists (String c a), b. simpl. now rewrite Hab.
      * intros [a [b Hab]]. destruct a as [|d a].
        -- assert (String.prefix p (String c s) = true)
             by (apply prefix_spec; now exists b).
           congruence.
        -- exists a, b. simpl in Hab. now injection Hab.
Qed.

Lemma toLowerCase_app (a b : string) :
  toLowerCase (a ++ b) = toLowerCase a ++ toLowerCase b.
Proof. induction a as [|c a IH]; simpl; [reflexivity | now rewrite IH]. Qed.

Lemma trimStart_keeps (a : string) (c : ascii) (r : string) :
  is_white_space c = false ->
  exists a', trimStart (a ++ String c r) = a' ++ String c r.
Proof.
  intros Hc. induction a as [|d a IH]; simpl.
  - rewrite Hc. now exists "".
  - destruct (is_white_space d); [exact IH|].
    now exists (String d a).
Qed.

Lemma trimEnd_keeps (a : string) (c : ascii) (b : string) :
  is_white_space c = false ->
  trimEnd (a ++ String c b) = a ++ String c (trimEnd b).
Proof.
  intros Hc. induction a as [|d a IH].
  - simpl. rewrite Hc. now destruct (trimEnd b).
  - cbn [append trimEnd]. rewrite IH.
    destruct a; reflexivity.
Qed.

(** Trimming removes nothing between two code units that are not white
    space. *)
Lemma trim_keeps (a : string) (c1 : ascii) (q : string) (c2 : ascii)
    (b : string) :
  is_white_space c1 = false -> is_white_space c2 = false ->
  exists a' b',
    trim (a ++ String c1 (q ++ String c2 b)) = a' ++ String c1 (q ++ String c2 b').
Proof.
  intros H1 H2. unfold trim.
  destruct (trimStart_keeps a c1 (q ++ String c2 b) H1) as [a' Ha'].
  rewrite Ha'. exists a', (trimEnd b).
  change (a' ++ String c1 (q ++ String c2 b))
    with (a' ++ (String c1 q ++ String c2 b)).
  rewrite <- append_assoc, trimEnd_keeps by exact H2.
  now rewrite append_assoc.
Qed.

Lemma lower_unit_white_space (c : ascii) :
  is_white_space (lower_unit c) = is_white_space c.
Proof. destruct c as [[] [] [] [] [] [] [] []]; reflexivity. Qed.

Lemma toLowerCase_trimStart (s : string) :
  toLowerCase (trimStart s) = trimStart (toLowerCase s).
Proof.
  induction s as [|c s IH]; simpl; [reflexivity|].
  rewrite lower_unit_white_space.
  destruct (is_white_space c); [exact IH | reflexivity].
Qed.

Lemma toLowerCase_trimEnd (s : string) :
  toLowerCase (trimEnd s) = trimEnd (toLowerCase s).
Proof.
  induction s as [|c s IH]; simpl; [reflexivity|].
  rewrite <- IH, lower_unit_white_space.
  destruct (trimEnd s); simpl; [|reflexivity].
  destruct (is_white_space c); reflexivity.
Qed.

Lemma toLowerCase_trim (s : string) :
  toLowerCase (trim s) = trim (toLowerCase s).
Proof. unfold trim. now rewrite toLowerCase_trimEnd, toLowerCase_trimStart. Qed.

(* ================================================================= *)
(** ** The colour sanitizer *)

Import api.

Lemma legacy_check_spec (c : string) :
  legacy_check c = true <-> legacy_red_repr c.
Proof.
  unfold legacy_check, legacy_red_repr.
  change (toLowerCase LEGACY_RED_HEX) with "#e11d47".
  rewrite !orb_true_iff, !String.eqb_eq, includes_spec. tauto.
Qed.

Lemma legacy_check_false (c : string) :
  legacy_check c = false <-> ~ legacy_red_repr c.
Proof.
  rewrite <- legacy_check_spec. destruct (legacy_check c); split; congruence.
Qed.

(** A representation survives trimming: none begins or ends with white
    space. *)
Lemma legacy_red_repr_trim (c : string) :
  legacy_red_repr c -> legacy_red_repr (trim c).
Proof.
  unfold legacy_red_repr.
  intros [-> | [-> | [[a [b ->]] | [-> | ->]]]]; auto.
  right; right; left.
  destruct (trim_keeps a "2" "25, 29, 7" "1" b eq_refl eq_refl) as [a' [b' E]].
  exists a', b'. exact E.
Qed.

(** ... and lower-casing: none has a capital. *)
Lemma legacy_red_repr_lower (c : string) :
  legacy_red_repr c -> legacy_red_repr (toLowerCase c).
Proof.
  unfold legacy_red_repr.
  intros [-> | [-> | [[a [b ->]] | [-> | ->]]]]; auto.
  right; right; left.
  exists (toLowerCase a), (toLowerCase b).
  now rewrite !toLowerCase_app.
Qed.

Lemma legacy_ignoring_case_is_legacy (s : string) :
  legacy_ignoring_case s -> is_legacy_red s.
Proof.
  unfold legacy_ignoring_case, is_legacy_red. intros H.
  rewrite toLowerCase_trim. now apply legacy_red_repr_trim.
Qed.

Lemma legacy_red_repr_is_legacy (s : string) :
  legacy_red_repr s -> is_legacy_red s.
Proof.
  intros H. now apply legacy_ignoring_case_is_legacy, legacy_red_repr_lower.
Qed.

(** The three ways out of [sanitizeColor]. *)
Lemma sanitizeColor_cases (color : option string) :
  (truthy color = false /\ sanitizeColor color = BRAND_GREEN)
  \/ (exists s, color = Some s /\ s <> "" /\ is_legacy_red s
                /\ sanitizeColor color = BRAND_GREEN)
  \/ (exists s, color = Some s /\ s <> "" /\ ~ is_legacy_red s
                /\ sanitizeColor color = s).
Proof.
  destruct color as [s|]; [|left; split; reflexivity].
  unfold sanitizeColor; simpl.
  destruct (String.eqb_spec s "") as [->|Hne]; [left; split; reflexivity|].
  right. destruct (legacy_check (toLowerCase (trim s))) eqn:Hc.
  - left. exists s. repeat split; auto. now apply legacy_check_spec.
  - right. exists s. repeat split; auto. now apply legacy_check_false.
Qed.

Lemma BRAND_GREEN_not_legacy : ~ is_legacy_red BRAND_GREEN.
Proof. apply legacy_check_false. reflexivity. Qed.

Lemma sanitizeColor_not_legacy (color : option string) :
  ~ is_legacy_red (sanitizeColor color).
Proof.
  destruct (sanitizeColor_cases color)
    as [[_ ->] | [[s [_ [_ [_ ->]]]] | [s [_ [_ [Hn ->]]]]]];
    auto using BRAND_GREEN_not_legacy.
Qed.

(** C5, as the claim states it, fails: an input that is not a legacy red up
    to letter case, here the word red after a space, is not returned
    unchanged. *)
Lemma sanitizeColor_changes_padded_red :
  ~ (forall s : string,
        s <> "" -> ~ legacy_ignoring_case s -> sanitizeColor (Some s) = s).
Proof.
  intros H. specialize (H " red").
  assert (E : sanitizeColor (Some " red") = " red").
  { apply H; [discriminate|]. apply legacy_check_false. reflexivity. }
  discriminate E.
Qed.

(** C5, amended: [sanitizeColor] returns the default brand colour for an
    undefined or empty input and for every input that, once its surrounding
    white space is trimmed and its letters are lower-cased, is [#e11d47],
    [rgb(225, 29, 71)], a string containing [225, 29, 71], [#ff0000] or
    [red] (which covers every input that is one of these up to letter case);
    every other input is returned unchanged.  In particular [#E11D47],
    [#e11d47] and [red] give the default, and [#123456] gives [#123456]. *)
Theorem sanitizeColor_spec :
  sanitizeColor None = BRAND_GREEN
  /\ sanitizeColor (Some "") = BRAND_GREEN
  /\ (forall s, is_legacy_red s -> sanitizeColor (Some s) = BRAND_GREEN)
  /\ (forall s, legacy_ignoring_case s -> sanitizeColor (Some s) = BRAND_GREEN)
  /\ (forall s, s <> "" -> ~ is_legacy_red s -> sanitizeColor (Some s) = s)
  /\ sanitizeColor (Some "#E11D47") = BRAND_GREEN
  /\ sanitizeColor (Some "#e11d47") = BRAND_GREEN
  /\ sanitizeColor (Some "red") = BRAND_GREEN
  /\ sanitizeColor (Some "#123456") = "#123456".
Proof.
  assert (L : forall s, is_legacy_red s -> sanitizeColor (Some s) = BRAND_GREEN).
  { intros s Hs.
    destruct (sanitizeColor_cases (Some s))
      as [[_ E] | [[s' [_ [_ [_ E]]]] | [s' [Es [_ [Hn _]]]]]]; auto.
    injection Es as <-. contradiction. }
  repeat split; try reflexivity; auto.
  - intros s Hs. now apply L, legacy_ignoring_case_is_legacy.
  - intros s Hne Hs.
    destruct (sanitizeColor_cases (Some s))
      as [[Ht _] | [[s' [Es [_ [Hl _]]]] | [s' [Es [_ [_ E]]]]]].
    + simpl in Ht. destruct (String.eqb_spec s ""); [contradiction|discriminate].
    + injection Es as <-. contradiction.
    + injection Es as <-. exact E.
Qed.

(** C7: [sanitizeColor] is idempotent. *)
Theorem sanitizeColor_idempotent (x : option string) :
  sanitizeColor (Some (sanitizeColor x)) = sanitizeColor x.
Proof.
  destruct (sanitizeColor_cases x)
    as [[_ ->] | [[s [_ [_ [_ ->]]]] | [s [-> [Hne [Hn E]]]]]];
    try reflexivity.
  rewrite E. exact E.
Qed.

(* ================================================================= *)
(** ** getClubSettings *)

(** C1, as the claim states it, fails: a stored dashboard background of
    [#e11d47] is returned as it is. *)
Lemma getClubSettings_returns_stored_red :
  ~ (forall (d r : ClubSettings.t) (v : string),
        getClubSettings (mkResponse (Some d) None) = Resolved r ->
        In (Some v) (color_fields r) -> ~ legacy_red_repr v).
Proof.
  intros H.
  apply (H legacy_row _ "#e11d47" eq_refl).
  - simpl. tauto.
  - left. reflexivity.
Qed.

(** C1, amended: in the record [getClubSettings] returns, the primary accent,
    the button background and the statistic colour are never the retired red,
    in none of its representations, also up to letter case and surrounding
    white space.  For a stored record the dashboard, header and card
    backgrounds are the stored value, or their default when it is missing or
    empty, and header text and card border are the stored value: none of the
    five is sanitized. *)
Theorem getClubSettings_brand_colors (res : Response ClubSettings.t)
    (r : ClubSettings.t) :
  getClubSettings res = Resolved r ->
  (forall v, In v (brand_color_fields r) ->
     exists s, v = Some s /\ ~ is_legacy_red s /\ ~ legacy_ignoring_case s
               /\ ~ legacy_red_repr s)
  /\ (forall d, res = mkResponse (Some d) None ->
        ClubSettings.dashboardBg r
          = Some (or_else (ClubSettings.dashboardBg d) "#000000")
        /\ ClubSettings.headerBg r
          = Some (or_else (ClubSettings.headerBg d) "#000000")
        /\ ClubSettings.cardBg r
          = Some (or_else (ClubSettings.cardBg d) "#0a0a0a")
        /\ ClubSettings.headerText r = ClubSettings.headerText d
        /\ ClubSettings.cardBorder r = ClubSettings.cardBorder d).
Proof.
  intros Hr.
  assert (N : forall c, exists s, Some (sanitizeColor c) = Some s
              /\ ~ is_legacy_red s /\ ~ legacy_ignoring_case s
              /\ ~ legacy_red_repr s).
  { intros c. exists (sanitizeColor c).
    pose proof (sanitizeColor_not_legacy c) as Hn.
    repeat split; auto.
    - intros Hc. now apply Hn, legacy_ignoring_case_is_legacy.
    - intros Hc. now apply Hn, legacy_red_repr_is_legacy. }
  split.
  - unfold getClubSettings in Hr.
    destruct (error res), (data res); injection Hr as <-;
      simpl; intros v [<- | [<- | [<- | []]]];
      solve [ apply N | apply (N (Some BRAND_GREEN)) ].
  - intros d ->. simpl in Hr. injection Hr as <-. simpl. tauto.
Qed.

Lemma getClubSettings_brand_colors_witness :
  exists r,
    getClubSettings (mkResponse (Some legacy_row) None) = Resolved r
    /\ brand_color_fields r
       = [Some BRAND_GREEN; Some BRAND_GREEN; Some BRAND_GREEN]
    /\ (forall v, In v (brand_color_fields r) ->
          exists s, v = Some s /\ ~ is_legacy_red s /\ ~ legacy_ignoring_case s
                    /\ ~ legacy_red_repr s)
    /\ ClubSettings.dashboardBg r = Some "#e11d47"
    /\ ClubSettings.headerText r = Some "red".
Proof.
  eexists. split; [reflexivity|]. split; [reflexivity|].
  split; [|split; reflexivity].
  exact (proj1 (getClubSettings_brand_colors
                  (mkResponse (Some legacy_row) None) _ eq_refl)).
Defined.

(** C9: when the read of the settings fails with an error or yields no row,
    [getClubSettings] resolves, and to the built-in defaults: brand BIKERS
    CREED, the default colours and fonts and the catalogue of six
    achievements. *)
Theorem getClubSettings_fallback (res : Response ClubSettings.t) :
  error res <> None \/ data res = None ->
  getClubSettings res = Resolved defaults
  /\ ClubSettings.brandName defaults = Some "BIKERS"
  /\ ClubSettings.brandSubName defaults = Some "CREED"
  /\ brand_color_fields defaults
     = [Some BRAND_GREEN; Some BRAND_GREEN; Some BRAND_GREEN]
  /\ ClubSettings.globalFont defaults = Some "Montserrat"
  /\ ClubSettings.headingFont defaults = Some "Bebas Neue"
  /\ option_map (@List.length _) (ClubSettings.achievements defaults) = Some 6%nat.
Proof.
  intros H. repeat split.
  unfold getClubSettings.
  destruct (error res) as [e|]; [reflexivity|].
  destruct (data res) as [d|]; [|reflexivity].
  destruct H as [H|H]; [contradiction | discriminate].
Qed.

Lemma getClubSettings_fallback_witness :
  getClubSettings (mkResponse None (Some {| message := "timeout" |}))
    = Resolved defaults
  /\ getClubSettings (mkResponse None None) = Resolved defaults.
Proof.
  split.
  - apply (getClubSettings_fallback
             (mkResponse None (Some {| message := "timeout" |}))).
    left. discriminate.
  - apply (getClubSettings_fallback (mkResponse None None)).
    right. reflexivity.
Defined.

(* ================================================================= *)
(** ** createRide *)

Lemma upcomingRides_In (rides : list Ride.t) (r : Ride.t) :
  In r (upcomingRides rides) <-> In r rides /\ Ride.status r = upcoming.
Proof.
  unfold upcomingRides. rewrite filter_In.
  destruct (Ride.status r); simpl; intuition congruence.
Qed.

(** C10: whatever the caller supplies, the row [createRide] inserts has
    status upcoming.  When the table accepts it, the promise resolves to the
    stored ride, which is the only row added, carries the caller's fields and
    is one of the upcoming rides; when the table refuses, nothing is stored
    and the promise is rejected.  Every row the call adds has status
    upcoming. *)
Theorem createRide_status_upcoming (table : list Ride.t) (ans : InsertAnswer)
    (rideData : RideData.t) :
  (forall r, In r (fst (createRide table ans rideData)) ->
             In r table \/ Ride.status r = upcoming)
  /\ (forall i, ans = Accept i ->
        exists r,
          createRide table ans rideData = ((table ++ [r])%list, Resolved (Some r))
          /\ Ride.status r = upcoming
          /\ Ride.id r = i
          /\ Ride.title r = RideData.title rideData
          /\ Ride.date r = RideData.date rideData
          /\ In r (upcomingRides (fst (createRide table ans rideData))))
  /\ (forall e, ans = Refuse e ->
        createRide table ans rideData = (table, Rejected e)).
Proof.
  repeat split.
  - intros r. destruct ans as [e|i]; simpl; [auto|].
    rewrite in_app_iff. intros [H | [<- | []]]; auto.
  - intros i ->. eexists. repeat split.
    simpl. apply upcomingRides_In. split; [|reflexivity].
    apply in_or_app. right. left. reflexivity.
  - intros e ->. reflexivity.
Qed.

(* ================================================================= *)
(** ** Sorting by threshold *)

Lemma insert_sorted_perm {A : Type} (cmp : A -> A -> Z) (a : A) (l : list A) :
  Permutation (insert_sorted cmp a l) (a :: l).
Proof.
  induction l as [|b l IH]; simpl; [reflexivity|].
  destruct (cmp a b <=? 0)%Z; [reflexivity|].
  rewrite IH. apply perm_swap.
Qed.

Lemma sort_perm {A : Type} (cmp : A -> A -> Z) (l : list A) :
  Permutation (sort cmp l) l.
Proof.
  induction l as [|a l IH]; simpl; [reflexivity|].
  rewrite insert_sorted_perm. now constructor.
Qed.

Lemma sort_In {A : Type} (cmp : A -> A -> Z) (l : list A) (x : A) :
  In x (sort cmp l) <-> In x l.
Proof.
  split; apply Permutation_in; [|symmetry]; apply sort_perm.
Qed.

Lemma insert_sorted_ascending (a : Achievement.t) (l : list Achievement.t) :
  StronglySorted le_threshold l ->
  StronglySorted le_threshold (insert_sorted compare_threshold a l).
Proof.
  induction 1 as [|b l Hl IH Hb]; simpl.
  - repeat constructor.
  - unfold compare_threshold at 1.
    destruct (Z.leb_spec (Achievement.threshold a - Achievement.threshold b) 0)
      as [Hab|Hab].
    + constructor; [now constructor|].
      constructor; [unfold le_threshold; lia|].
      eapply Forall_impl; [|exact Hb].
      unfold le_threshold. intros x Hx. lia.
    + constructor; [exact IH|].
      eapply Permutation_Forall;
        [symmetry; apply insert_sorted_perm|].
      constructor; [unfold le_threshold; lia | exact Hb].
Qed.

Lemma sort_ascending (l : list Achievement.t) :
  StronglySorted le_threshold (sort compare_threshold l).
Proof.
  induction l as [|a l IH]; simpl; [constructor|].
  now apply insert_sorted_ascending.
Qed.

(** The sort is stable: achievements of one threshold keep their order. *)
Lemma sort_stable (l : list Achievement.t) (t : Z) :
  filter (fun a => Achievement.threshold a =? t)%Z (sort compare_threshold l)
  = filter (fun a => Achievement.threshold a =? t)%Z l.
Proof.
  induction l as [|a l IH]; simpl; [reflexivity|].
  rewrite <- IH. generalize (sort compare_threshold l) as s. clear IH.
  induction s as [|b s IHs]; simpl; [reflexivity|].
  unfold compare_threshold at 1.
  destruct (Z.leb_spec (Achievement.threshold a - Achievement.threshold b) 0)
    as [Hab|Hab]; [reflexivity|].
  simpl. rewrite IHs. simpl.
  destruct (Z.eqb_spec (Achievement.threshold a) t),
           (Z.eqb_spec (Achievement.threshold b) t); try reflexivity; lia.
Qed.

Lemma last_opt_spec {A : Type} (l : list A) (x : A) :
  last_opt l = Some x <-> exists front, l = (front ++ [x])%list.
Proof.
  destruct l as [|a l]; simpl.
  - split; [discriminate | intros [[|? ?] H]; discriminate].
  - assert (E0 : last l a = last (a :: l) a) by (destruct l; reflexivity).
    destruct (@exists_last _ (a :: l)) as [front [y E]]; [discriminate|].
    rewrite E0, E, last_last. split.
    + intros [= <-]. now exists front.
    + intros [front' H]. apply app_inj_tail in H. now destruct H as [_ <-].
Qed.

Lemma last_opt_None {A : Type} (l : list A) : last_opt l = None <-> l = [].
Proof. destruct l; simpl; split; congruence. Qed.

Lemma last_snoc {A : Type} (front : list A) (x d : A) :
  last (front ++ [x]) d = x.
Proof. apply last_last. Qed.

(** The last element of an ascending list bounds the others. *)
Lemma ascending_last_max (front : list Achievement.t) (h x : Achievement.t) :
  StronglySorted le_threshold (front ++ [h]) ->
  In x (front ++ [h]) -> le_threshold x h.
Proof.
  induction front as [|a front IH]; simpl; intros Hs Hx.
  - destruct Hx as [<- | []]. unfold le_threshold. lia.
  - apply StronglySorted_inv in Hs. destruct Hs as [Hs Ha].
    destruct Hx as [<- | Hx]; [|now apply IH].
    rewrite Forall_forall in Ha. apply Ha.
    apply in_or_app. right. left. reflexivity.
Qed.

(* ================================================================= *)
(** ** Searching a list *)

Lemma find_first {A : Type} (f : A -> bool) (l : list A) (a : A) :
  find f l = Some a ->
  exists front back,
    l = (front ++ a :: back)%list
    /\ (forall x, In x front -> f x = false) /\ f a = true.
Proof.
  induction l as [|b l IH]; simpl; [discriminate|].
  destruct (f b) eqn:Hb.
  - intros [= <-]. exists [], l. simpl. repeat split; auto. intros x [].
  - intros H. destruct (IH H) as [front [back [-> [Hf Ha]]]].
    exists (b :: front), back. repeat split; auto.
    intros x [<- | Hx]; auto.
Qed.

Lemma last_default {A : Type} (b : A) (l : list A) (d d' : A) :
  last (b :: l) d = last (b :: l) d'.
Proof.
  revert b; induction l as [|c l IH]; intros b; [reflexivity|].
  change (last (c :: l) d = last (c :: l) d'). apply IH.
Qed.

Lemma last_opt_cons {A : Type} (a : A) (l : list A) :
  last_opt (a :: l) = match last_opt l with Some x => Some x | None => Some a end.
Proof.
  destruct l as [|b l]; [reflexivity|]. simpl. f_equal.
  destruct l as [|c l]; [reflexivity|]. apply last_default.
Qed.

Lemma filter_nil {A : Type} (f : A -> bool) (l : list A) :
  filter f l = [] <-> forall x, In x l -> f x = false.
Proof.
  induction l as [|a l IH]; simpl.
  - split; [intros _ x [] | reflexivity].
  - destruct (f a) eqn:Ha.
    + split; [discriminate|]. intros H. specialize (H a (or_introl eq_refl)).
      congruence.
    + rewrite IH. split.
      * intros H x [<- | Hx]; auto.
      * intros H x Hx. apply H. now right.
Qed.

Lemma filter_last {A : Type} (f : A -> bool) (l : list A) (p : A) :
  last_opt (filter f l) = Some p ->
  exists front back,
    l = (front ++ p :: back)%list
    /\ f p = true /\ (forall x, In x back -> f x = false).
Proof.
  induction l as [|a l IH]; simpl; [discriminate|].
  destruct (last_opt (filter f l)) as [p'|] eqn:Hl.
  - intros H.
    assert (E : p' = p).
    { destruct (f a); [rewrite last_opt_cons, Hl in H|]; congruence. }
    subst p'. destruct (IH eq_refl) as [front [back [-> [Hp Hb]]]].
    exists (a :: front), back. repeat split; auto.
  - apply last_opt_None in Hl. rewrite Hl.
    destruct (f a) eqn:Ha; simpl; [|discriminate].
    intros [= <-]. exists [], l. repeat split; auto.
    now apply filter_nil.
Qed.

(* ================================================================= *)
(** ** The progress formula *)

Lemma clamp_Fin (q : Q) :
  percentage (Math_min (of_Z 100) (Math_max (of_Z 0) (Fin q))).
Proof.
  unfold percentage, of_Z. simpl.
  destruct (Qle_bool (inject_Z 0) q) eqn:H0; simpl.
  - destruct (Qle_bool (inject_Z 100) q) eqn:H1.
    + exists (inject_Z 100). repeat split; discriminate.
    + exists q. repeat split.
      * now apply Qle_bool_iff in H0.
      * apply Qnot_lt_le. intros Hlt. apply Qlt_le_weak in Hlt.
        apply Qle_bool_iff in Hlt. change 100%Q with (inject_Z 100) in Hlt.
        congruence.
  - exists (inject_Z 0). repeat split; discriminate.
Qed.

(** The clamp brings every number into the interval: only [NaN] passes
    through it, so the bound does not depend on how the quotient was
    rounded. *)
Lemma clamp_percentage (x : jsnum) :
  x <> NaN -> percentage (Math_min (of_Z 100) (Math_max (of_Z 0) x)).
Proof.
  destruct x as [q| | |]; intros Hx.
  - apply clamp_Fin.
  - exists (inject_Z 100). repeat split; discriminate.
  - exists (inject_Z 0). repeat split; discriminate.
  - contradiction.
Qed.

(** The quotient is [NaN] at [0/0] only. *)
Lemma quotient_not_NaN (a b : Z) :
  ~ (a = 0 /\ b = 0)%Z -> jmul (jdiv (of_Z a) (of_Z b)) (of_Z 100) <> NaN.
Proof.
  intros Hab. destruct (Z.eq_dec b 0) as [->|Hb].
  - assert (Ha : a <> 0%Z) by tauto.
    destruct a as [|p|p]; [contradiction| |]; discriminate.
  - unfold of_Z at 1 2. unfold jdiv.
    destruct (inject_Z b ?= 0)%Q eqn:E; try discriminate.
    apply Qeq_alt in E. exfalso. apply Hb.
    unfold Qeq in E. simpl in E. lia.
Qed.

(** Away from [0/0] the clamped formula is a percentage. *)
Lemma progress_of_percentage (catValue prevThreshold next : Z) :
  ~ (catValue - prevThreshold = 0 /\ next - prevThreshold = 0)%Z ->
  percentage (progress_of catValue prevThreshold next).
Proof.
  intros H. apply clamp_percentage. now apply quotient_not_NaN.
Qed.

(** At [0/0] it is [NaN]. *)
Lemma progress_of_NaN (t : Z) : progress_of t t t = NaN.
Proof. unfold progress_of. rewrite Z.sub_diag. reflexivity. Qed.

(* ================================================================= *)
(** ** The cards *)

Lemma catAchievements_In (achievements : list Achievement.t)
    (category : AchievementCategory) (a : Achievement.t) :
  In a (catAchievements achievements category)
  <-> In a achievements /\ Achievement.category a = category.
Proof.
  unfold catAchievements. rewrite sort_In, filter_In.
  destruct (Achievement.category a), category; simpl;
    intuition congruence.
Qed.

Lemma catAchievements_nil (achievements : list Achievement.t)
    (category : AchievementCategory) :
  catAchievements achievements category = []
  <-> in_category achievements category = [].
Proof.
  unfold catAchievements, in_category. split; intros H.
  - apply Permutation_nil. rewrite <- H. apply sort_perm.
  - now rewrite H.
Qed.

(** [card] unfolded: the sorted list ends in the achievement [isMaxed] is
    computed from, and the fields are the source's expressions. *)
Lemma card_Some (user : User.t) (achievements : list Achievement.t)
    (category : AchievementCategory) (c : CategoryCard.t) :
  card user achievements category = Some c ->
  let sorted := catAchievements achievements category in
  let catValue := getStatValue user category in
  exists front highest,
    sorted = (front ++ [highest])%list
    /\ CategoryCard.category c = category
    /\ CategoryCard.catValue c = catValue
    /\ CategoryCard.nextAchievement c
       = match find (fun a => (Achievement.threshold a >? catValue)%Z) sorted with
         | Some a => a
         | None => highest
         end
    /\ CategoryCard.prevThreshold c
       = or_zero (option_map Achievement.threshold
           (last_opt (filter (fun a => (Achievement.threshold a <=? catValue)%Z)
                             sorted)))
    /\ CategoryCard.progress c
       = progress_of catValue (CategoryCard.prevThreshold c)
           (Achievement.threshold (CategoryCard.nextAchievement c))
    /\ CategoryCard.isMaxed c
       = (catValue >=? Achievement.threshold highest)%Z.
Proof.
  intros H. cbv zeta. unfold card in H. cbv zeta in H.
  destruct (catAchievements achievements category) as [|first rest] eqn:Es;
    [discriminate|].
  destruct (@exists_last _ (first :: rest)) as [front [highest E]];
    [discriminate|].
  exists front, highest. rewrite E in H |- *. rewrite last_snoc in H.
  injection H as <-. simpl. repeat split.
Qed.

Lemma card_None (user : User.t) (achievements : list Achievement.t)
    (category : AchievementCategory) :
  card user achievements category = None
  <-> in_category achievements category = [].
Proof.
  rewrite <- catAchievements_nil. unfold card.
  destruct (catAchievements achievements category); split; congruence.
Qed.

Lemma categories_complete (category : AchievementCategory) :
  In category categories.
Proof. destruct category; simpl; tauto. Qed.

Lemma cards_In (user : User.t) (s : ClubSettings.t) (c : CategoryCard.t) :
  In c (cards user (Some s))
  <-> exists achievements category,
        ClubSettings.achievements s = Some achievements
        /\ card user achievements category = Some c.
Proof.
  unfold cards, AchievementProgress.
  destruct (ClubSettings.achievements s) as [l|].
  - rewrite in_flat_map. split.
    + intros [slot [Hs Hc]]. apply in_map_iff in Hs.
      destruct Hs as [category [<- _]].
      destruct (card user l category) as [c'|] eqn:E; [|destruct Hc].
      destruct Hc as [<- | []]. now exists l, category.
    + intros [l' [category [[= <-] Hc]]].
      exists (Some c). split; [|left; reflexivity].
      rewrite <- Hc. apply in_map, categories_complete.
  - split; [intros [] | intros [l [category [H _]]]; discriminate].
Qed.

Lemma highest_on_top (achievements : list Achievement.t)
    (category : AchievementCategory) (front : list Achievement.t)
    (highest a : Achievement.t) :
  catAchievements achievements category = (front ++ [highest])%list ->
  In a (catAchievements achievements category) ->
  (Achievement.threshold a <= Achievement.threshold highest)%Z.
Proof.
  intros E Ha. apply (ascending_last_max front); rewrite <- E; [|exact Ha].
  apply sort_ascending.
Qed.

Lemma in_category_In (achievements : list Achievement.t)
    (category : AchievementCategory) (a : Achievement.t) :
  In a (in_category achievements category)
  <-> In a (catAchievements achievements category).
Proof. unfold catAchievements, in_category. now rewrite sort_In. Qed.

(** When nothing exceeds the counter, the search of [nextAchievement] finds
    nothing and the card is maxed. *)
Lemma find_exceeding_None (l : list Achievement.t) (catValue : Z) :
  (forall a, In a l -> (Achievement.threshold a <= catValue)%Z) ->
  find (fun a => (Achievement.threshold a >? catValue)%Z) l = None.
Proof.
  intros H. destruct (find _ l) as [a|] eqn:E; [|reflexivity].
  apply find_some in E. destruct E as [Ha Hgt]. apply H in Ha. lia.
Qed.

(** C2: every card that is displayed has a bar width, the displayed progress
    fraction, in the interval [0, 100], whatever the catalogue and the
    counters. *)
Theorem cards_width_percentage (user : User.t)
    (settings : option ClubSettings.t) (c : CategoryCard.t) :
  In c (cards user settings) -> percentage (CategoryCard.width c).
Proof.
  destruct settings as [s|]; [|intros []].
  rewrite cards_In. intros [achievements [category [_ Hc]]].
  apply card_Some in Hc. cbv zeta in Hc.
  destruct Hc as [front [highest [Es [_ [_ [Hn [_ [Hp Hm]]]]]]]].
  unfold CategoryCard.width.
  assert (H100 : percentage (of_Z 100))
    by (exists (inject_Z 100); repeat split; discriminate).
  destruct (CategoryCard.isMaxed c) eqn:Em; [exact H100|].
  rewrite Hp. apply progress_of_percentage.
  destruct (find _ (catAchievements achievements category)) as [a|] eqn:Ef.
  - apply find_some in Ef. destruct Ef as [_ Hgt].
    rewrite Hn. lia.
  - exfalso. pose proof (find_none _ _ Ef highest) as Hh. simpl in Hh.
    rewrite Es in Hh.
    assert (Hin : In highest (front ++ [highest]))
      by (apply in_or_app; right; left; reflexivity).
    apply Hh in Hin. lia.
Qed.

Lemma cards_width_percentage_witness :
  In {| CategoryCard.category := Kms; CategoryCard.catValue := 400;
        CategoryCard.nextAchievement := api.ach 1000 "Iron Butt" Kms;
        CategoryCard.prevThreshold := 0; CategoryCard.progress := Fin 40;
        CategoryCard.isMaxed := false |}
     (cards (rider 400 0 0 0 0) (Some (settings_of iron_butt_catalogue)))
  /\ percentage (Fin 40).
Proof.
  split; [left; reflexivity|].
  apply (cards_width_percentage (rider 400 0 0 0 0)
           (Some (settings_of iron_butt_catalogue))
           {| CategoryCard.category := Kms; CategoryCard.catValue := 400;
              CategoryCard.nextAchievement := api.ach 1000 "Iron Butt" Kms;
              CategoryCard.prevThreshold := 0; CategoryCard.progress := Fin 40;
              CategoryCard.isMaxed := false |}).
  left. reflexivity.
Defined.

(** C8: a category without achievements in the catalogue has no card: its
    slot of the grid is [null], and no displayed card is of that category. *)
Theorem empty_category_no_card (user : User.t) (s : ClubSettings.t)
    (achievements : list Achievement.t) (category : AchievementCategory) :
  ClubSettings.achievements s = Some achievements ->
  (forall a, In a achievements -> Achievement.category a <> category) ->
  card user achievements category = None
  /\ (forall c, In c (cards user (Some s)) ->
                CategoryCard.category c <> category).
Proof.
  intros Hs Hnone.
  assert (Hc : card user achievements category = None).
  { apply card_None. apply filter_nil. intros a Ha.
    specialize (Hnone a Ha).
    destruct (Achievement.category a), category; simpl; congruence. }
  split; [exact Hc|].
  intros c Hin. apply cards_In in Hin.
  destruct Hin as [l [category' [Hl Hc']]].
  rewrite Hs in Hl. injection Hl as <-.
  pose proof (card_Some _ _ _ _ Hc') as Hf. cbv zeta in Hf.
  destruct Hf as [_ [_ [_ [Ecat _]]]].
  intros E. rewrite Ecat in E. subst category'. congruence.
Qed.

Lemma empty_category_no_card_witness :
  card (rider 400 3 0 0 0) iron_butt_catalogue Leads = None
  /\ (forall c,
        In c (cards (rider 400 3 0 0 0) (Some (settings_of iron_butt_catalogue))) ->
        CategoryCard.category c <> Leads).
Proof.
  apply (empty_category_no_card (rider 400 3 0 0 0)
           (settings_of iron_butt_catalogue) iron_butt_catalogue Leads eq_refl).
  intros a [<- | []]. discriminate.
Defined.

Lemma or_zero_Some (t : Z) : or_zero (Some t) = t.
Proof. simpl. now destruct (Z.eqb_spec t 0). Qed.

Lemma gtb_false (a b : Z) : (a >? b)%Z = false <-> (a <= b)%Z.
Proof. rewrite Z.gtb_ltb. apply Z.ltb_ge. Qed.

Lemma gtb_true (a b : Z) : (a >? b)%Z = true <-> (b < a)%Z.
Proof. rewrite Z.gtb_ltb. apply Z.ltb_lt. Qed.

Lemma geb_true (a b : Z) : (a >=? b)%Z = true <-> (b <= a)%Z.
Proof. rewrite Z.geb_leb. apply Z.leb_le. Qed.

(** C3: when the counter of a category with achievements has reached the
    highest threshold of the category, the card is maxed, its bar is at
    exactly 100, and [nextAchievement] is the last achievement of the
    ascending list, whose threshold is the highest.  With First Lead at 5,
    Road Master at 10 and a counter of 10: maxed, 100, Road Master. *)
Theorem maxed_category :
  (forall (user : User.t) (s : ClubSettings.t)
          (achievements : list Achievement.t) (category : AchievementCategory),
      ClubSettings.achievements s = Some achievements ->
      in_category achievements category <> [] ->
      (forall a, In a (in_category achievements category) ->
                 (Achievement.threshold a <= getStatValue user category)%Z) ->
      exists c front,
        card user achievements category = Some c
        /\ In c (cards user (Some s))
        /\ CategoryCard.isMaxed c = true
        /\ CategoryCard.width c = of_Z 100
        /\ catAchievements achievements category
           = (front ++ [CategoryCard.nextAchievement c])%list
        /\ (forall a, In a (in_category achievements category) ->
              (Achievement.threshold a
               <= Achievement.threshold (CategoryCard.nextAchievement c))%Z))
  /\ (exists c,
        cards (rider 0 10 0 0 0) (Some (settings_of leads_catalogue)) = [c]
        /\ CategoryCard.isMaxed c = true
        /\ CategoryCard.width c = of_Z 100
        /\ Achievement.label (CategoryCard.nextAchievement c) = "Road Master").
Proof.
  split; [|eexists; repeat split].
  intros user s achievements category Hs Hne Hmax.
  destruct (card user achievements category) as [c|] eqn:Hc;
    [|apply card_None in Hc; contradiction].
  pose proof (card_Some _ _ _ _ Hc) as Hf. cbv zeta in Hf.
  destruct Hf as [front [highest [Es [_ [_ [Hn [_ [_ Hm]]]]]]]].
  rewrite find_exceeding_None in Hn
    by (intros a Ha; now apply Hmax, in_category_In).
  assert (Hh : In highest (catAchievements achievements category))
    by (rewrite Es; apply in_or_app; right; left; reflexivity).
  assert (Emax : CategoryCard.isMaxed c = true).
  { rewrite Hm. apply geb_true. now apply Hmax, in_category_In. }
  exists c, front. repeat split.
  - apply cards_In. now exists achievements, category.
  - exact Emax.
  - unfold CategoryCard.width. now rewrite Emax.
  - now rewrite Hn.
  - intros a Ha. rewrite Hn. apply (highest_on_top _ _ _ _ _ Es).
    now apply in_category_In.
Qed.

Lemma maxed_category_witness :
  exists c front,
    card (rider 0 10 0 0 0) leads_catalogue Leads = Some c
    /\ In c (cards (rider 0 10 0 0 0) (Some (settings_of leads_catalogue)))
    /\ CategoryCard.isMaxed c = true
    /\ CategoryCard.width c = of_Z 100
    /\ catAchievements leads_catalogue Leads
       = (front ++ [CategoryCard.nextAchievement c])%list
    /\ (forall a, In a (in_category leads_catalogue Leads) ->
          (Achievement.threshold a
           <= Achievement.threshold (CategoryCard.nextAchievement c))%Z).
Proof.
  apply (proj1 maxed_category (rider 0 10 0 0 0) (settings_of leads_catalogue)
           leads_catalogue Leads eq_refl).
  - discriminate.
  - intros a [<- | [<- | []]]; simpl; lia.
Defined.

(** C4: for a category with achievements, [catAchievements] is the
    category's achievements in ascending order of threshold;
    [nextAchievement] is the first of them whose threshold exceeds the
    counter, or the last, highest one when none does; [prevThreshold] is the
    threshold of the last of them that is at most the counter, or 0 when
    there is none.  With Iron Butt at 1000 and a counter of 400:
    [prevThreshold] 0, next threshold 1000, progress 40, not maxed. *)
Theorem next_and_previous :
  (forall (user : User.t) (achievements : list Achievement.t)
          (category : AchievementCategory) (c : CategoryCard.t),
      card user achievements category = Some c ->
      let sorted := catAchievements achievements category in
      let current := getStatValue user category in
      let next := CategoryCard.nextAchievement c in
      StronglySorted le_threshold sorted
      /\ Permutation sorted (in_category achievements category)
      /\ ((exists front back,
              sorted = (front ++ next :: back)%list
              /\ (forall x, In x front -> (Achievement.threshold x <= current)%Z)
              /\ (current < Achievement.threshold next)%Z)
          \/ ((forall x, In x sorted -> (Achievement.threshold x <= current)%Z)
              /\ (exists front, sorted = (front ++ [next])%list)
              /\ (forall x, In x sorted ->
                    (Achievement.threshold x <= Achievement.threshold next)%Z)))
      /\ ((exists front p back,
              sorted = (front ++ p :: back)%list
              /\ (Achievement.threshold p <= current)%Z
              /\ (forall x, In x back -> (current < Achievement.threshold x)%Z)
              /\ CategoryCard.prevThreshold c = Achievement.threshold p)
          \/ ((forall x, In x sorted -> (current < Achievement.threshold x)%Z)
              /\ CategoryCard.prevThreshold c = 0%Z)))
  /\ (exists c,
        cards (rider 400 0 0 0 0) (Some (settings_of iron_butt_catalogue)) = [c]
        /\ CategoryCard.prevThreshold c = 0%Z
        /\ Achievement.threshold (CategoryCard.nextAchievement c) = 1000%Z
        /\ CategoryCard.progress c = Fin 40
        /\ CategoryCard.isMaxed c = false).
Proof.
  split; [|eexists; repeat split].
  intros user achievements category c Hc sorted current next.
  pose proof (card_Some _ _ _ _ Hc) as Hf. cbv zeta in Hf.
  fold sorted current next in Hf.
  destruct Hf as [front [highest [Es [_ [_ [Hn [Hp _]]]]]]].
  split; [apply sort_ascending|].
  split; [apply sort_perm|].
  split.
  - destruct (find _ sorted) as [a|] eqn:Ef.
    + left. destruct (find_first _ _ _ Ef) as [fr [back [E [Hfr Ha]]]].
      exists fr, back. rewrite Hn. repeat split; auto.
      * intros x Hx. now apply gtb_false, Hfr.
      * now apply gtb_true.
    + right. pose proof (find_none _ _ Ef) as Hall. simpl in Hall.
      repeat split.
      * intros x Hx. now apply gtb_false, Hall.
      * exists front. now rewrite Hn.
      * intros x Hx. rewrite Hn.
        now apply (highest_on_top achievements category front).
  - destruct (last_opt (filter _ sorted)) as [p|] eqn:El.
    + left. destruct (filter_last _ _ _ El) as [fr [back [E [Hle Hb]]]].
      exists fr, p, back. repeat split; auto.
      * now apply Z.leb_le.
      * intros x Hx. apply Z.leb_gt. now apply Hb.
      * rewrite Hp. simpl option_map. apply or_zero_Some.
    + right. apply last_opt_None in El.
      split; [|now rewrite Hp].
      intros x Hx. apply Z.leb_gt.
      now apply (proj1 (filter_nil _ _) El).
Qed.

Lemma next_and_previous_witness :
  exists c,
    card (rider 0 7 0 0 0) leads_catalogue Leads = Some c
    /\ Achievement.label (CategoryCard.nextAchievement c) = "Road Master"
    /\ CategoryCard.prevThreshold c = 5%Z
    /\ ((exists front back,
            catAchievements leads_catalogue Leads
            = (front ++ CategoryCard.nextAchievement c :: back)%list
            /\ (forall x, In x front -> (Achievement.threshold x <= 7)%Z)
            /\ (7 < Achievement.threshold (CategoryCard.nextAchievement c))%Z)
        \/ ((forall x, In x (catAchievements leads_catalogue Leads) ->
                       (Achievement.threshold x <= 7)%Z)
            /\ (exists front,
                   catAchievements leads_catalogue Leads
                   = (front ++ [CategoryCard.nextAchievement c])%list)
            /\ (forall x, In x (catAchievements leads_catalogue Leads) ->
                  (Achievement.threshold x
                   <= Achievement.threshold (CategoryCard.nextAchievement c))%Z))).
Proof.
  eexists. split; [reflexivity|]. split; [reflexivity|]. split; [reflexivity|].
  exact (proj1 (proj2 (proj2
    (proj1 next_and_previous (rider 0 7 0 0 0) leads_catalogue Leads _ eq_refl)))).
Defined.

(** C6: when all achievements of a category have one threshold and the
    counter equals it, the formula divides zero by zero and [progress] is
    [NaN]; the card is nevertheless maxed and its bar, which reads [isMaxed]
    first, is at exactly 100.  With A and B both at 5 and a counter of 5:
    maxed, 100. *)
Theorem equal_thresholds :
  (forall (user : User.t) (achievements : list Achievement.t)
          (category : AchievementCategory) (c : CategoryCard.t) (t : Z),
      card user achievements category = Some c ->
      (forall a, In a (in_category achievements category) ->
                 Achievement.threshold a = t) ->
      getStatValue user category = t ->
      (CategoryCard.catValue c - CategoryCard.prevThreshold c = 0)%Z
      /\ (Achievement.threshold (CategoryCard.nextAchievement c)
          - CategoryCard.prevThreshold c = 0)%Z
      /\ CategoryCard.progress c = NaN
      /\ CategoryCard.isMaxed c = true
      /\ CategoryCard.width c = of_Z 100)
  /\ (exists c,
        cards (rider 0 0 0 5 0) (Some (settings_of duplicate_catalogue)) = [c]
        /\ CategoryCard.progress c = NaN
        /\ CategoryCard.isMaxed c = true
        /\ CategoryCard.width c = of_Z 100).
Proof.
  split; [|eexists; repeat split].
  intros user achievements category c t Hc Hall Hcur.
  pose proof (card_Some _ _ _ _ Hc) as Hf. cbv zeta in Hf.
  destruct Hf as [front [highest [Es [_ [Hv [Hn [Hp [Hg Hm]]]]]]]].
  assert (Ht : forall a, In a (catAchievements achievements category) ->
                         Achievement.threshold a = t)
    by (intros a Ha; now apply Hall, in_category_In).
  assert (Hh : Achievement.threshold highest = t).
  { apply Ht. rewrite Es. apply in_or_app. right. left. reflexivity. }
  rewrite find_exceeding_None in Hn
    by (intros a Ha; rewrite (Ht a Ha); lia).
  assert (Eprev : CategoryCard.prevThreshold c = t).
  { rewrite Hp.
    destruct (last_opt (filter _ (catAchievements achievements category)))
      as [p|] eqn:El.
    - destruct (filter_last _ _ _ El) as [fr [back [E _]]].
      simpl option_map. rewrite or_zero_Some. apply Ht.
      rewrite E. apply in_or_app. right. left. reflexivity.
    - exfalso. apply last_opt_None in El.
      assert (Hin : In highest (catAchievements achievements category))
        by (rewrite Es; apply in_or_app; right; left; reflexivity).
      apply (proj1 (filter_nil _ _) El) in Hin. simpl in Hin.
      apply Z.leb_gt in Hin. lia. }
  assert (Emax : CategoryCard.isMaxed c = true)
    by (rewrite Hm; apply geb_true; lia).
  rewrite Hn, Hh, Eprev in Hg. rewrite Hcur in Hg.
  rewrite Hv, Hn, Hh, Eprev, Hcur.
  repeat split; try lia; auto.
  - rewrite Hg. apply progress_of_NaN.
  - unfold CategoryCard.width. now rewrite Emax.
Qed.

Lemma equal_thresholds_witness :
  exists c,
    card (rider 0 0 0 5 0) duplicate_catalogue RPs = Some c
    /\ (CategoryCard.catValue c - CategoryCard.prevThreshold c = 0)%Z
    /\ (Achievement.threshold (CategoryCard.nextAchievement c)
        - CategoryCard.prevThreshold c = 0)%Z
    /\ CategoryCard.progress c = NaN
    /\ CategoryCard.isMaxed c = true
    /\ CategoryCard.width c = of_Z 100.
Proof.
  eexists. split; [reflexivity|].
  apply (proj1 equal_thresholds (rider 0 0 0 5 0) duplicate_catalogue RPs _
           5%Z eq_refl).
  - intros a [<- | [<- | []]]; reflexivity.
  - reflexivity.
Defined.

(* ================================================================= *)
(** ** The scenarios in double precision *)

(** On the scenarios the exact quotient is what IEEE 754 arithmetic gives:
    400/1000*100 rounds to 40, 2/5*100 to 40, and 0/0 is not a number. *)
Lemma scenarios_in_double_precision :
  raw_progress_double 400 0 1000 = double 40
  /\ raw_progress_double 7 5 10 = double 40
  /\ raw_progress_double 5 5 5 = S754_nan
  /\ raw_progress_double 10 10 10 = S754_nan.
Proof. repeat split; vm_compute; reflexivity. Qed.

(* ================================================================= *)
(** ** The ride form *)

Lemma Array_includes_In (l : list string) (x : string) :
  Array_includes l x = true <-> In x l.
Proof.
  unfold Array_includes. rewrite existsb_exists. split.
  - intros [t [Ht E]]. apply String.eqb_eq in E. now subst.
  - intros H. exists x. split; [exact H | apply String.eqb_refl].
Qed.

Lemma Array_includes_app (l1 l2 : list string) (x : string) :
  Array_includes (l1 ++ l2) x = Array_includes l1 x || Array_includes l2 x.
Proof. unfold Array_includes. apply existsb_app. Qed.

Lemma Array_includes_remove (l : list string) (terrain t : string) :
  Array_includes (filter (fun u => negb (u =? terrain)) l) t
  = negb (t =? terrain) && Array_includes l t.
Proof.
  induction l as [|a l IH]; simpl; [now rewrite andb_false_r|].
  destruct (String.eqb_spec a terrain) as [->|Ha]; simpl.
  - rewrite IH. rewrite (String.eqb_sym terrain t).
    destruct (t =? terrain); reflexivity.
  - rewrite IH. destruct (String.eqb_spec a t) as [->|Hat]; simpl.
    + destruct (String.eqb_spec t terrain); [contradiction|reflexivity].
    + reflexivity.
Qed.

Lemma with_terrainTypes_same (formData : RideData.t) :
  with_terrainTypes formData (RideData.terrainTypes formData) = formData.
Proof. destruct formData; reflexivity. Qed.

Lemma filter_absent (l : list string) (terrain : string) :
  ~ In terrain l -> filter (fun u => negb (u =? terrain)) l = l.
Proof.
  induction l as [|a l IH]; simpl; intros H; [reflexivity|].
  destruct (String.eqb_spec a terrain) as [->|Ha]; simpl.
  - exfalso. apply H. now left.
  - rewrite IH; [reflexivity|]. intros Hin. apply H. now right.
Qed.

(** X1: A click on a terrain flips whether the list has it, leaves every other
    terrain in or out as it was, and touches no other field of the form. *)
Theorem handleTerrainToggle_flips (formData : RideData.t) (terrain t : string) :
  Array_includes (RideData.terrainTypes (handleTerrainToggle formData terrain)) t
  = (if t =? terrain
     then negb (Array_includes (RideData.terrainTypes formData) terrain)
     else Array_includes (RideData.terrainTypes formData) t)
  /\ with_terrainTypes (handleTerrainToggle formData terrain)
       (RideData.terrainTypes formData) = formData.
Proof.
  split; [|destruct formData; reflexivity].
  unfold handleTerrainToggle. cbv zeta. simpl RideData.terrainTypes.
  destruct (Array_includes (RideData.terrainTypes formData) terrain) eqn:E.
  - rewrite Array_includes_remove.
    destruct (String.eqb_spec t terrain) as [->|Hne]; reflexivity.
  - rewrite Array_includes_app. simpl. rewrite orb_false_r.
    rewrite (String.eqb_sym terrain t).
    destruct (String.eqb_spec t terrain) as [->|Hne].
    + now rewrite E.
    + now rewrite orb_false_r.
Qed.

Lemma handleTerrainToggle_NoDup (formData : RideData.t) (terrain : string) :
  NoDup (RideData.terrainTypes formData) ->
  NoDup (RideData.terrainTypes (handleTerrainToggle formData terrain)).
Proof.
  intros H. unfold handleTerrainToggle. cbv zeta. simpl RideData.terrainTypes.
  destruct (Array_includes (RideData.terrainTypes formData) terrain) eqn:E.
  - now apply NoDup_filter.
  - apply NoDup_app; auto.
    + repeat constructor. intros [].
    + intros x Hx [<- | []]. apply Array_includes_In in Hx. congruence.
Qed.

(** X2: Starting from a list without repetition, as the empty list the form
    opens with, no sequence of clicks makes a terrain appear twice. *)
Theorem terrainTypes_never_repeat (formData : RideData.t)
    (clicks : list string) :
  NoDup (RideData.terrainTypes formData) ->
  NoDup (RideData.terrainTypes (fold_left handleTerrainToggle clicks formData)).
Proof.
  revert formData. induction clicks as [|t clicks IH]; intros formData H.
  - exact H.
  - simpl. apply IH. now apply handleTerrainToggle_NoDup.
Qed.

Lemma terrainTypes_never_repeat_witness :
  NoDup (RideData.terrainTypes
           (fold_left handleTerrainToggle
              ["Highway"; "Coastal"; "Highway"; "City"; "City"; "Highway"]
              (blank_form "2026-01-10" "9000000001"))).
Proof.
  apply (terrainTypes_never_repeat (blank_form "2026-01-10" "9000000001")).
  constructor.
Defined.

(** X3: Two clicks on a terrain that the form did not have leave the form as it
    was; on a list without repetition two clicks on any terrain leave the
    same terrains, possibly in another order. *)
Theorem handleTerrainToggle_twice (formData : RideData.t) (terrain : string) :
  NoDup (RideData.terrainTypes formData) ->
  Permutation
    (RideData.terrainTypes
       (handleTerrainToggle (handleTerrainToggle formData terrain) terrain))
    (RideData.terrainTypes formData)
  /\ (~ In terrain (RideData.terrainTypes formData) ->
      handleTerrainToggle (handleTerrainToggle formData terrain) terrain
      = formData).
Proof.
  intros Hnd.
  assert (Habsent : ~ In terrain (RideData.terrainTypes formData) ->
      handleTerrainToggle (handleTerrainToggle formData terrain) terrain
      = formData).
  { intros Hn. unfold handleTerrainToggle at 2. cbv zeta.
    destruct (Array_includes (RideData.terrainTypes formData) terrain) eqn:E;
      [apply Array_includes_In in E; contradiction|].
    unfold handleTerrainToggle. cbv zeta. simpl RideData.terrainTypes.
    rewrite Array_includes_app. simpl. rewrite String.eqb_refl, orb_true_r.
    rewrite filter_app. simpl. rewrite String.eqb_refl. simpl.
    rewrite filter_absent, app_nil_r by exact Hn.
    destruct formData; reflexivity. }
  split; [|exact Habsent].
  destruct (in_dec string_dec terrain (RideData.terrainTypes formData))
    as [Hin|Hn]; [|now rewrite Habsent].
  unfold handleTerrainToggle at 2. cbv zeta.
  destruct (Array_includes (RideData.terrainTypes formData) terrain) eqn:E;
    [|apply Array_includes_In in Hin; congruence].
  unfold handleTerrainToggle. cbv zeta. simpl RideData.terrainTypes.
  rewrite Array_includes_remove, String.eqb_refl. simpl.
  apply NoDup_Permutation; auto.
  - apply NoDup_app.
    + now apply NoDup_filter.
    + repeat constructor. intros [].
    + intros x Hx [<- | []]. apply filter_In in Hx.
      destruct Hx as [_ Hx]. now rewrite String.eqb_refl in Hx.
  - intros x. rewrite in_app_iff, filter_In. simpl. split.
    + intros [[Hx _] | [<- | []]]; auto.
    + intros Hx. destruct (String.eqb_spec x terrain) as [->|Hne]; auto.
Qed.

Lemma handleTerrainToggle_twice_witness :
  Permutation
    (RideData.terrainTypes
       (handleTerrainToggle (handleTerrainToggle coast_form "Highway") "Highway"))
    (RideData.terrainTypes coast_form)
  /\ (~ In "Coastal" (RideData.terrainTypes coast_form) ->
      handleTerrainToggle (handleTerrainToggle coast_form "Coastal") "Coastal"
      = coast_form).
Proof.
  split.
  - apply (handleTerrainToggle_twice coast_form "Highway").
    repeat constructor. intros [].
  - apply (handleTerrainToggle_twice coast_form "Coastal").
    repeat constructor. intros [].
Defined.

(** X4: [handleCreate] never sends a ride without a title or a summary: with
    either empty the table is left alone, whatever the backend would answer,
    and the alert asks for them.  Every row the handler adds has a title, a
    summary and the status upcoming. *)
Theorem handleCreate_requires_title (table : list Ride.t) (ans : InsertAnswer)
    (formData : RideData.t) :
  (RideData.title formData = "" \/ RideData.summary formData = "" ->
   handleCreate table ans formData = (table, AlertRequired))
  /\ (forall r, In r (fst (handleCreate table ans formData)) ->
        In r table
        \/ (Ride.title r <> "" /\ Ride.summary r <> ""
            /\ Ride.status r = upcoming)).
Proof.
  unfold handleCreate.
  destruct (String.eqb_spec (RideData.title formData) "") as [Et|Et];
    destruct (String.eqb_spec (RideData.summary formData) "") as [Es|Es];
    simpl; try (split; [reflexivity | now left]).
  split; [intros [H|H]; contradiction|].
  destruct ans as [e|i]; simpl; [now left|].
  intros r Hr. apply in_app_or in Hr. destruct Hr as [Hr | [<- | []]]; auto.
Qed.

Lemma filteredRides_In (f : string) (rides : list Ride.t) (r : Ride.t) :
  f <> "" ->
  (In r (filteredRides (Some f) rides)
   <-> In r rides /\ In f (Ride.terrainTypes r)).
Proof.
  intros Hf. unfold filteredRides.
  destruct (String.eqb_spec f ""); [contradiction|].
  now rewrite filter_In, Array_includes_In.
Qed.

(** X5: Without a terrain filter, or with the empty one, the marshal sees every
    ride; with a filter exactly the rides whose terrain list has it. *)
Theorem filteredRides_spec (rides : list Ride.t) :
  filteredRides None rides = rides
  /\ filteredRides (Some "") rides = rides
  /\ (forall f r, f <> "" ->
        (In r (filteredRides (Some f) rides)
         <-> In r rides /\ In f (Ride.terrainTypes r))).
Proof.
  split; [reflexivity|]. split; [reflexivity|].
  intros f r Hf. now apply filteredRides_In.
Qed.

(** X6: A ride created right after a terrain was switched on in the form is
    stored, is upcoming and is listed under that terrain's filter. *)
Theorem created_ride_listed_by_terrain (table : list Ride.t) (id : string)
    (formData : RideData.t) (terrain : string) :
  RideData.title formData <> "" ->
  RideData.summary formData <> "" ->
  terrain <> "" ->
  ~ In terrain (RideData.terrainTypes formData) ->
  exists table' r,
    handleCreate table (Accept id) (handleTerrainToggle formData terrain)
      = (table', ShowSuccess)
    /\ Ride.id r = id
    /\ In r (upcomingRides table')
    /\ In r (filteredRides (Some terrain) table').
Proof.
  intros Ht Hs Hne Habs.
  assert (E : Array_includes (RideData.terrainTypes formData) terrain = false).
  { destruct (Array_includes _ terrain) eqn:E; [|reflexivity].
    apply Array_includes_In in E. contradiction. }
  set (fd := handleTerrainToggle formData terrain).
  set (r := stored_row id {| NewRide.rideData := fd; NewRide.status := upcoming |}).
  assert (Ef : RideData.terrainTypes fd
               = (RideData.terrainTypes formData ++ [terrain])%list).
  { unfold fd, handleTerrainToggle. cbv zeta. now rewrite E. }
  exists (table ++ [r])%list, r. repeat split.
  - unfold handleCreate.
    change (RideData.title fd) with (RideData.title formData).
    change (RideData.summary fd) with (RideData.summary formData).
    destruct (String.eqb_spec (RideData.title formData) ""); [contradiction|].
    destruct (String.eqb_spec (RideData.summary formData) ""); [contradiction|].
    reflexivity.
  - apply upcomingRides_In. split; [|reflexivity].
    apply in_or_app. right. left. reflexivity.
  - apply filteredRides_In; [exact Hne|]. split.
    + apply in_or_app. right. left. reflexivity.
    + change (Ride.terrainTypes r) with (RideData.terrainTypes fd).
      rewrite Ef. apply in_or_app. right. left. reflexivity.
Qed.

Lemma created_ride_listed_by_terrain_witness :
  exists table' r,
    handleCreate [] (Accept "r-1") (handleTerrainToggle coast_form "Coastal")
      = (table', ShowSuccess)
    /\ Ride.id r = "r-1"
    /\ In r (upcomingRides table')
    /\ In r (filteredRides (Some "Coastal") table').
Proof.
  apply (created_ride_listed_by_terrain [] "r-1" coast_form "Coastal");
    try discriminate.
  intros [H | []]. discriminate H.
Defined.

(* ================================================================= *)
(** ** Deleting rides *)

Lemma filter_other_ids (table : list Ride.t) (rideId : string) :
  (forall r, In r table -> Ride.id r <> rideId) ->
  filter (fun r => negb (Ride.id r =? rideId)) table = table.
Proof.
  induction table as [|a table IH]; simpl; intros H; [reflexivity|].
  destruct (String.eqb_spec (Ride.id a) rideId) as [E|E]; simpl.
  - exfalso. apply (H a); auto.
  - rewrite IH; [reflexivity|]. intros r Hr. apply H. now right.
Qed.

(** An accepted [deleteRide] removes the rides of that id and no other; a
    refused one removes nothing and is rejected; deleting an id the table
    does not have changes nothing. *)
Theorem deleteRide_spec (table : list Ride.t) (rideId : string) :
  (forall r, In r (fst (api.deleteRide table None rideId))
             <-> In r table /\ Ride.id r <> rideId)
  /\ snd (api.deleteRide table None rideId) = Resolved {| success := true |}
  /\ (forall e, api.deleteRide table (Some e) rideId = (table, Rejected e))
  /\ ((forall r, In r table -> Ride.id r <> rideId) ->
      fst (api.deleteRide table None rideId) = table).
Proof.
  split; [|split; [reflexivity | split; [reflexivity|]]].
  - intros r. simpl. rewrite filter_In.
    destruct (String.eqb_spec (Ride.id r) rideId); simpl; intuition congruence.
  - simpl. apply filter_other_ids.
Qed.

(** X7: Creating a ride under an id the table does not use yet and deleting the
    ride that came back gives the table as it was. *)
Theorem createRide_deleteRide (table : list Ride.t) (id : string)
    (rideData : RideData.t) :
  (forall r, In r table -> Ride.id r <> id) ->
  exists r,
    snd (api.createRide table (Accept id) rideData) = Resolved (Some r)
    /\ api.deleteRide (fst (api.createRide table (Accept id) rideData)) None
         (Ride.id r)
       = (table, Resolved {| success := true |}).
Proof.
  intros Hfresh. eexists. split; [reflexivity|].
  simpl. unfold api.deleteRide, rides_delete.
  rewrite filter_app. simpl. rewrite String.eqb_refl. simpl.
  now rewrite app_nil_r, filter_other_ids.
Qed.

Lemma createRide_deleteRide_witness :
  exists r,
    snd (api.createRide [stored_row "r-1" {| NewRide.rideData := coast_form;
                                             NewRide.status := completed |}]
           (Accept "r-2") coast_form) = Resolved (Some r)
    /\ api.deleteRide
         (fst (api.createRide
                 [stored_row "r-1" {| NewRide.rideData := coast_form;
                                      NewRide.status := completed |}]
                 (Accept "r-2") coast_form))
         None (Ride.id r)
       = ([stored_row "r-1" {| NewRide.rideData := coast_form;
                               NewRide.status := completed |}],
          Resolved {| success := true |}).
Proof.
  apply (createRide_deleteRide
           [stored_row "r-1" {| NewRide.rideData := coast_form;
                                NewRide.status := completed |}]
           "r-2" coast_form).
  intros r [<- | []]. discriminate.
Defined.

(* ================================================================= *)
(** ** More on the cards *)

Lemma getStatValue_no_mileage (u : User.t) (category : AchievementCategory) :
  no_mileage u -> getStatValue u category = 0%Z.
Proof. intros [? [? [? [? ?]]]]. destruct category; simpl; assumption. Qed.

Lemma progress_of_zero (t : Z) : (0 < t)%Z -> progress_of 0 0 t = of_Z 0.
Proof.
  intros Ht. unfold progress_of. rewrite Z.sub_0_r.
  destruct t as [|p|p]; try lia. reflexivity.
Qed.

(** A user without mileage, facing a catalogue of positive thresholds: every
    card is at 0, is not maxed, starts from 0 and aims at the first
    achievement of the ascending list. *)
Lemma no_mileage_cards (u : User.t) (achievements : list Achievement.t)
    (category : AchievementCategory) (c : CategoryCard.t) :
  no_mileage u ->
  (forall a, In a achievements -> (0 < Achievement.threshold a)%Z) ->
  card u achievements category = Some c ->
  CategoryCard.width c = of_Z 0
  /\ CategoryCard.isMaxed c = false
  /\ CategoryCard.prevThreshold c = 0%Z
  /\ exists back,
       catAchievements achievements category
       = CategoryCard.nextAchievement c :: back.
Proof.
  intros Hu Hpos Hc.
  pose proof (card_Some _ _ _ _ Hc) as Hf. cbv zeta in Hf.
  rewrite (getStatValue_no_mileage u category Hu) in Hf.
  destruct Hf as [front [highest [Es [_ [_ [Hn [Hp [Hg Hm]]]]]]]].
  assert (Hall : forall a, In a (catAchievements achievements category) ->
                           (0 < Achievement.threshold a)%Z).
  { intros a Ha. apply Hpos. now apply catAchievements_In in Ha. }
  assert (Hh : (0 < Achievement.threshold highest)%Z).
  { apply Hall. rewrite Es. apply in_or_app. right. left. reflexivity. }
  destruct (catAchievements achievements category) as [|first rest] eqn:Ec.
  { destruct front; discriminate. }
  assert (Hfirst : (0 < Achievement.threshold first)%Z)
    by (apply Hall; now left).
  simpl find in Hn.
  destruct (Z.gtb_spec (Achievement.threshold first) 0) as [_|Hle];
    [|lia].
  assert (Ef : filter (fun a => (Achievement.threshold a <=? 0)%Z) (first :: rest)
               = []).
  { apply filter_nil. intros a Ha. apply Z.leb_gt. now apply Hall. }
  rewrite Ef in Hp. simpl in Hp.
  assert (Em : CategoryCard.isMaxed c = false).
  { rewrite Hm, Z.geb_leb. apply Z.leb_gt. exact Hh. }
  repeat split.
  - unfold CategoryCard.width. rewrite Em, Hg, Hp, Hn.
    now apply progress_of_zero.
  - exact Em.
  - exact Hp.
  - exists rest. now rewrite Hn.
Qed.

(** X8: A rider added through [addRider] is stored with the five counters at
    zero, whatever the form sent.  Against a catalogue whose thresholds are
    all positive every card of the new rider is at 0, not maxed, and aims at
    the lowest achievement of its category.  A refused insert stores
    nothing. *)
Theorem addRider_starts_at_zero (table : list User.t) (riderData : RiderData.t) :
  (exists u,
      api.addRider table None riderData
        = ((table ++ [u])%list, Resolved (Some u))
      /\ User.id u = RiderData.id riderData
      /\ User.name u = RiderData.name riderData
      /\ no_mileage u
      /\ forall s achievements c,
           ClubSettings.achievements s = Some achievements ->
           (forall a, In a achievements -> (0 < Achievement.threshold a)%Z) ->
           In c (cards u (Some s)) ->
           CategoryCard.width c = of_Z 0
           /\ CategoryCard.isMaxed c = false
           /\ CategoryCard.prevThreshold c = 0%Z
           /\ exists back,
                catAchievements achievements (CategoryCard.category c)
                = CategoryCard.nextAchievement c :: back)
  /\ (forall e, api.addRider table (Some e) riderData = (table, Rejected e)).
Proof.
  split; [|reflexivity].
  eexists. split; [reflexivity|]. split; [reflexivity|]. split; [reflexivity|].
  split; [repeat split|].
  intros s achievements c Hs Hpos Hc.
  apply cards_In in Hc. destruct Hc as [l [category [Hl Hc]]].
  rewrite Hs in Hl. injection Hl as <-.
  pose proof (card_Some _ _ _ _ Hc) as Hf. cbv zeta in Hf.
  destruct Hf as [_ [_ [_ [-> _]]]].
  eapply no_mileage_cards; [|exact Hpos|exact Hc].
  repeat split.
Qed.

Lemma card_category_present (user : User.t) (achievements : list Achievement.t)
    (category : AchievementCategory) :
  match card user achievements category with
  | Some c =>
      CategoryCard.category c = category
      /\ existsb (fun a => category_eqb (Achievement.category a) category)
                 achievements = true
  | None =>
      existsb (fun a => category_eqb (Achievement.category a) category)
              achievements = false
  end.
Proof.
  destruct (card user achievements category) as [c|] eqn:Hc.
  - pose proof (card_Some _ _ _ _ Hc) as Hf. cbv zeta in Hf.
    destruct Hf as [front [highest [Es [Ecat _]]]].
    split; [exact Ecat|]. apply existsb_exists. exists highest.
    assert (Hin : In highest (catAchievements achievements category))
      by (rewrite Es; apply in_or_app; right; left; reflexivity).
    apply catAchievements_In in Hin. destruct Hin as [Hin <-].
    split; [exact Hin|]. now destruct (Achievement.category highest).
  - apply card_None in Hc.
    destruct (existsb _ achievements) eqn:E; [|reflexivity].
    apply existsb_exists in E. destruct E as [a [Ha Hcat]].
    assert (Hin : In a (in_category achievements category))
      by (apply filter_In; auto).
    rewrite Hc in Hin. destruct Hin.
Qed.

(** X9: The cards come one per category that has achievements, in the order Kms,
    Leads, Sweeps, RPs, Rides: no category shows twice and at most five cards
    show. *)
Theorem cards_in_category_order (user : User.t) (s : ClubSettings.t)
    (achievements : list Achievement.t) :
  ClubSettings.achievements s = Some achievements ->
  map CategoryCard.category (cards user (Some s))
  = filter (fun category =>
              existsb (fun a => category_eqb (Achievement.category a) category)
                      achievements)
           categories.
Proof.
  intros Hs. unfold cards, AchievementProgress. rewrite Hs.
  induction categories as [|category cats IH]; [reflexivity|].
  simpl. rewrite map_app, IH.
  pose proof (card_category_present user achievements category) as H.
  destruct (card user achievements category) as [c|].
  - destruct H as [E ->]. simpl. now rewrite E.
  - now rewrite H.
Qed.

Lemma cards_in_category_order_witness :
  map CategoryCard.category
      (cards (rider 400 3 0 0 0) (Some (settings_of leads_catalogue)))
  = [Leads].
Proof.
  exact (cards_in_category_order (rider 400 3 0 0 0)
           (settings_of leads_catalogue) leads_catalogue eq_refl).
Defined.

(** X10: A card is maxed exactly when no achievement of its category exceeds the
    counter; when it is not, the achievement it names is still ahead: its
    threshold exceeds the counter, and [prevThreshold] does not. *)
Theorem isMaxed_iff (user : User.t) (achievements : list Achievement.t)
    (category : AchievementCategory) (c : CategoryCard.t) :
  card user achievements category = Some c ->
  (CategoryCard.isMaxed c = true
   <-> forall a, In a (in_category achievements category) ->
                 (Achievement.threshold a <= getStatValue user category)%Z)
  /\ (CategoryCard.isMaxed c = false ->
      (getStatValue user category
       < Achievement.threshold (CategoryCard.nextAchievement c))%Z
      /\ (CategoryCard.prevThreshold c <= getStatValue user category
          \/ CategoryCard.prevThreshold c = 0)%Z).
Proof.
  intros Hc.
  pose proof (card_Some _ _ _ _ Hc) as Hf. cbv zeta in Hf.
  destruct Hf as [front [highest [Es [_ [_ [Hn [Hp [_ Hm]]]]]]]].
  assert (Hiff : CategoryCard.isMaxed c = true
     <-> forall a, In a (in_category achievements category) ->
                   (Achievement.threshold a <= getStatValue user category)%Z).
  { rewrite Hm, geb_true. split.
    - intros Hh a Ha. apply in_category_In in Ha.
      pose proof (highest_on_top _ _ _ _ _ Es Ha). lia.
    - intros Hall. apply Hall, in_category_In. rewrite Es.
      apply in_or_app. right. left. reflexivity. }
  split; [exact Hiff|].
  intros Em. split.
  - destruct (find _ (catAchievements achievements category)) as [a|] eqn:Ef.
    + apply find_some in Ef. destruct Ef as [_ Hgt].
      rewrite Hn. now apply gtb_true.
    + exfalso. assert (Et : CategoryCard.isMaxed c = true); [|congruence].
      apply Hiff. intros a Ha. apply in_category_In in Ha.
      apply gtb_false. exact (find_none _ _ Ef a Ha).
  - rewrite Hp.
    destruct (last_opt (filter _ (catAchievements achievements category)))
      as [p|] eqn:El; [|now right].
    destruct (filter_last _ _ _ El) as [fr [back [_ [Hle _]]]].
    left. simpl option_map. rewrite or_zero_Some. now apply Z.leb_le.
Qed.

Lemma isMaxed_iff_witness :
  exists c,
    card (rider 0 7 0 0 0) leads_catalogue Leads = Some c
    /\ (CategoryCard.isMaxed c = true
        <-> forall a, In a (in_category leads_catalogue Leads) ->
                      (Achievement.threshold a
                       <= getStatValue (rider 0 7 0 0 0) Leads)%Z)
    /\ (CategoryCard.isMaxed c = false ->
        (getStatValue (rider 0 7 0 0 0) Leads
         < Achievement.threshold (CategoryCard.nextAchievement c))%Z
        /\ (CategoryCard.prevThreshold c <= getStatValue (rider 0 7 0 0 0) Leads
            \/ CategoryCard.prevThreshold c = 0)%Z).
Proof.
  eexists. split; [reflexivity|].
  apply (isMaxed_iff (rider 0 7 0 0 0) leads_catalogue Leads _ eq_refl).
Defined.

(** X11: Within a category the list behind a card keeps achievements of equal
    threshold in the order of the catalogue. *)
Theorem catAchievements_stable (achievements : list Achievement.t)
    (category : AchievementCategory) (t : Z) :
  filter (fun a => Achievement.threshold a =? t)%Z
         (catAchievements achievements category)
  = filter (fun a => Achievement.threshold a =? t)%Z
           (in_category achievements category).
Proof. apply sort_stable. Qed.

(* ================================================================= *)
(** ** The achievement editor *)

Lemma filter_index_drop {A : Type} (index i : nat) (l : list A) :
  filter_index (fun _ j => negb (j =? index)%nat) i l
  = if (index <? i)%nat then l
    else (firstn (index - i) l ++ skipn (S (index - i)) l)%list.
Proof.
  revert i. induction l as [|a l IH]; intros i.
  - simpl. destruct (index <? i)%nat; [reflexivity|].
    now rewrite firstn_nil.
  - simpl filter_index. rewrite IH.
    destruct (Nat.ltb_spec index i) as [Hlt|Hge].
    + destruct (Nat.eqb_spec i index); [lia|]. simpl.
      destruct (Nat.ltb_spec index (S i)); [reflexivity|lia].
    + destruct (Nat.eqb_spec i index) as [->|Hne]; simpl.
      * destruct (Nat.ltb_spec index (S index)); [|lia].
        now rewrite Nat.sub_diag.
      * destruct (Nat.ltb_spec index (S i)); [lia|].
        replace (index - i)%nat with (S (index - S i)) by lia.
        reflexivity.
Qed.

Lemma removeItem_firstn_skipn (items : list Achievement.t) (index : nat) :
  removeItem items index = (firstn index items ++ skipn (S index) items)%list.
Proof.
  unfold removeItem. rewrite filter_index_drop. simpl.
  now rewrite Nat.sub_0_r.
Qed.

(** X12: [removeItem] takes out the item at the index and keeps the others in
    order; an index past the end removes nothing. *)
Theorem removeItem_spec (items : list Achievement.t) (index : nat) :
  removeItem items index = (firstn index items ++ skipn (S index) items)%list
  /\ (forall j, nth_error (removeItem items index) j
                = if (j <? index)%nat then nth_error items j
                  else nth_error items (S j))
  /\ ((length items <= index)%nat -> removeItem items index = items).
Proof.
  split; [apply removeItem_firstn_skipn|]. split.
  - intros j. rewrite removeItem_firstn_skipn.
    destruct (Nat.ltb_spec j index) as [Hlt|Hge].
    + destruct (Nat.lt_ge_cases j (length items)) as [Hj|Hj].
      * rewrite nth_error_app1 by (rewrite length_firstn; lia).
        rewrite nth_error_firstn.
        now destruct (Nat.ltb_spec j index); [|lia].
      * rewrite (proj2 (nth_error_None items j)) by lia.
        apply nth_error_None.
        rewrite length_app, length_firstn, length_skipn. lia.
    + destruct (Nat.le_gt_cases (length items) index) as [Hi|Hi].
      * rewrite firstn_all2, skipn_all2, app_nil_r by lia.
        rewrite (proj2 (nth_error_None items j)) by lia.
        symmetry. apply nth_error_None. lia.
      * rewrite nth_error_app2 by (rewrite length_firstn; lia).
        rewrite length_firstn, Nat.min_l by lia.
        rewrite nth_error_skipn. f_equal. lia.
  - intros Hi. rewrite removeItem_firstn_skipn.
    now rewrite firstn_all2, skipn_all2, app_nil_r by lia.
Qed.

(** X13: Granting a new honor and removing the last item gives the list as it
    was. *)
Theorem addItem_removeItem (items : list Achievement.t) :
  removeItem (addItem items) (length items) = items.
Proof.
  rewrite removeItem_firstn_skipn. unfold addItem.
  rewrite firstn_app, Nat.sub_diag, firstn_all. simpl firstn.
  rewrite skipn_all2 by (rewrite length_app; simpl; lia).
  now rewrite !app_nil_r.
Qed.

Lemma map_index_nth {A B : Type} (f : A -> nat -> B) (i : nat) (l : list A)
    (j : nat) :
  nth_error (map_index f i l) j
  = option_map (fun a => f a (i + j)%nat) (nth_error l j).
Proof.
  revert i j. induction l as [|a l IH]; intros i j.
  - now destruct j.
  - destruct j as [|j]; simpl.
    + now rewrite Nat.add_0_r.
    + rewrite IH. now rewrite Nat.add_succ_r.
Qed.

Lemma map_index_length {A B : Type} (f : A -> nat -> B) (i : nat) (l : list A) :
  length (map_index f i l) = length l.
Proof. revert i. induction l as [|a l IH]; intros i; simpl; auto. Qed.

(** X14: [updateItem] writes the field of the item at the index and of no other:
    the list keeps its length and its other items, and an index past the end
    changes nothing. *)
Theorem updateItem_spec (items : list Achievement.t) (index : nat)
    (fv : FieldValue) :
  length (updateItem items index fv) = length items
  /\ (forall j, nth_error (updateItem items index fv) j
                = if (j =? index)%nat
                  then option_map (fun item => with_field item fv)
                                  (nth_error items j)
                  else nth_error items j)
  /\ ((length items <= index)%nat -> updateItem items index fv = items).
Proof.
  assert (Hn : forall j, nth_error (updateItem items index fv) j
                = if (j =? index)%nat
                  then option_map (fun item => with_field item fv)
                                  (nth_error items j)
                  else nth_error items j).
  { intros j. unfold updateItem. rewrite map_index_nth. simpl.
    destruct (j =? index)%nat; [reflexivity|].
    now destruct (nth_error items j). }
  split; [apply map_index_length|]. split; [exact Hn|].
  intros Hi. apply nth_error_ext. intros j. rewrite Hn.
  destruct (Nat.eqb_spec j index) as [->|]; [|reflexivity].
  now rewrite (proj2 (nth_error_None items index)) by lia.
Qed.

(* ================================================================= *)
(** ** Texts do not move the bars *)

Lemma Forall2_filter {A : Type} (R : A -> A -> Prop) (p : A -> bool)
    (l l' : list A) :
  (forall a a', R a a' -> p a = p a') ->
  Forall2 R l l' -> Forall2 R (filter p l) (filter p l').
Proof.
  intros Hp. induction 1 as [|a a' l l' Ha _ IH]; simpl; [constructor|].
  rewrite (Hp a a' Ha). destruct (p a'); [now constructor | exact IH].
Qed.

Lemma Forall2_insert_sorted (a a' : Achievement.t) (l l' : list Achievement.t) :
  same_milestone a a' -> Forall2 same_milestone l l' ->
  Forall2 same_milestone (insert_sorted compare_threshold a l)
                         (insert_sorted compare_threshold a' l').
Proof.
  intros Ha. induction 1 as [|b b' l l' Hb Hl IH]; simpl.
  - constructor; [exact Ha | constructor].
  - unfold compare_threshold at 1 3.
    rewrite (proj1 Ha), (proj1 Hb).
    destruct (_ <=? 0)%Z.
    + constructor; [exact Ha|]. constructor; [exact Hb | exact Hl].
    + constructor; [exact Hb | exact IH].
Qed.

Lemma Forall2_sort (l l' : list Achievement.t) :
  Forall2 same_milestone l l' ->
  Forall2 same_milestone (sort compare_threshold l) (sort compare_threshold l').
Proof.
  induction 1 as [|a a' l l' Ha _ IH]; simpl; [constructor|].
  now apply Forall2_insert_sorted.
Qed.

Lemma Forall2_find (p : Achievement.t -> bool) (l l' : list Achievement.t)
    (d d' : Achievement.t) :
  (forall a a', same_milestone a a' -> p a = p a') ->
  Forall2 same_milestone l l' -> same_milestone d d' ->
  same_milestone (match find p l with Some a => a | None => d end)
                 (match find p l' with Some a => a | None => d' end).
Proof.
  intros Hp Hl Hd. induction Hl as [|a a' l l' Ha _ IH]; simpl; [exact Hd|].
  rewrite (Hp a a' Ha). destruct (p a'); [exact Ha | exact IH].
Qed.

Lemma Forall2_last (l l' : list Achievement.t) (d d' : Achievement.t) :
  Forall2 same_milestone l l' -> same_milestone d d' ->
  same_milestone (last l d) (last l' d').
Proof.
  intros Hl Hd. induction Hl as [|a a' l l' Ha Hl IH]; simpl; [exact Hd|].
  destruct Hl; [exact Ha | exact IH].
Qed.

Lemma Forall2_last_threshold (l l' : list Achievement.t) :
  Forall2 same_milestone l l' ->
  option_map Achievement.threshold (last_opt l)
  = option_map Achievement.threshold (last_opt l').
Proof.
  intros Hl. destruct Hl as [|a a' l l' Ha Hl]; simpl; [reflexivity|].
  f_equal. now apply Forall2_last.
Qed.

Lemma card_numbers_of_sorted (user : User.t) (l : list Achievement.t)
    (category : AchievementCategory) :
  option_map card_numbers (card user l category)
  = numbers_of_sorted category (getStatValue user category)
      (catAchievements l category).
Proof.
  unfold card. cbv zeta.
  destruct (catAchievements l category); reflexivity.
Qed.

Lemma numbers_of_sorted_same (category : AchievementCategory) (catValue : Z)
    (sorted sorted' : list Achievement.t) :
  Forall2 same_milestone sorted sorted' ->
  numbers_of_sorted category catValue sorted
  = numbers_of_sorted category catValue sorted'.
Proof.
  intros Hss. unfold numbers_of_sorted.
  destruct Hss as [|a a' s s' Ha Hs]; [reflexivity|].
  assert (Hss : Forall2 same_milestone (a :: s) (a' :: s')) by now constructor.
  assert (Hhi : same_milestone (last (a :: s) a) (last (a' :: s') a'))
    by now apply Forall2_last.
  assert (Ep : prev_threshold catValue (a :: s)
               = prev_threshold catValue (a' :: s')).
  { unfold prev_threshold. f_equal.
    apply Forall2_last_threshold, Forall2_filter; [|exact Hss].
    intros x x' [E _]. now rewrite E. }
  assert (En : next_threshold catValue (a :: s) (last (a :: s) a)
               = next_threshold catValue (a' :: s') (last (a' :: s') a')).
  { unfold next_threshold.
    apply (Forall2_find (fun x => (Achievement.threshold x >? catValue)%Z));
      auto.
    intros x x' [E _]. now rewrite E. }
  cbv zeta. now rewrite Ep, En, (proj1 Hhi).
Qed.

(** Catalogues that agree on thresholds and categories give the same
    numbers on every card. *)
Lemma same_milestones_same_numbers (user : User.t)
    (l l' : list Achievement.t) (category : AchievementCategory) :
  Forall2 same_milestone l l' ->
  option_map card_numbers (card user l category)
  = option_map card_numbers (card user l' category).
Proof.
  intros Hl. rewrite !card_numbers_of_sorted.
  apply numbers_of_sorted_same.
  apply Forall2_sort, Forall2_filter; [|exact Hl].
  intros a a' [_ E]. now rewrite E.
Qed.

Lemma updateItem_same_milestone (items : list Achievement.t) (index : nat)
    (fv : FieldValue) :
  is_text fv = true ->
  Forall2 same_milestone (updateItem items index fv) items.
Proof.
  intros Hfv. unfold updateItem. generalize 0%nat as i.
  induction items as [|a items IH]; intros i; simpl; constructor; auto.
  destruct (i =? index)%nat; [|split; reflexivity].
  destruct fv; try discriminate; split; reflexivity.
Qed.

(** X15: Editing a label, an icon or an id in the editor changes no number on any
    card: the same categories show, with the same counters, thresholds,
    progress and maxed flags. *)
Theorem text_edit_keeps_numbers (user : User.t) (items : list Achievement.t)
    (index : nat) (fv : FieldValue) (category : AchievementCategory) :
  is_text fv = true ->
  option_map card_numbers (card user (updateItem items index fv) category)
  = option_map card_numbers (card user items category).
Proof.
  intros Hfv. apply same_milestones_same_numbers.
  now apply updateItem_same_milestone.
Qed.

Lemma text_edit_keeps_numbers_witness :
  option_map card_numbers
    (card (rider 0 7 0 0 0)
          (updateItem leads_catalogue 1 (set_label "Road King")) Leads)
  = option_map card_numbers (card (rider 0 7 0 0 0) leads_catalogue Leads).
Proof.
  apply (text_edit_keeps_numbers (rider 0 7 0 0 0) leads_catalogue 1
           (set_label "Road King") Leads).
  reflexivity.
Defined.

(* ================================================================= *)
(** ** Branding *)

Lemma add_all_In (seen l : list string) (x : string) :
  In x (add_all seen l) <-> In x l /\ ~ In x seen.
Proof.
  revert seen. induction l as [|a l IH]; intros seen; simpl; [tauto|].
  destruct (Array_includes seen a) eqn:E.
  - apply Array_includes_In in E. rewrite IH. split.
    + intros [H Hn]. auto.
    + intros [[<- | H] Hn]; [contradiction | auto].
  - assert (Ha : ~ In a seen)
      by (intros H; apply Array_includes_In in H; congruence).
    simpl. rewrite IH. simpl. split.
    + intros [<- | [H Hn]]; auto.
    + intros [[<- | H] Hn]; auto.
      destruct (string_dec a x) as [->|Hne]; auto.
      right. split; [exact H|]. intros [E' | E']; auto.
Qed.

Lemma add_all_NoDup (seen l : list string) : NoDup (add_all seen l).
Proof.
  revert seen. induction l as [|a l IH]; intros seen; simpl; [constructor|].
  destruct (Array_includes seen a); [apply IH|].
  constructor; [|apply IH].
  rewrite add_all_In. intros [_ H]. apply H. now left.
Qed.

Lemma add_all_length (seen l : list string) :
  (length (add_all seen l) <= length l)%nat.
Proof.
  revert seen. induction l as [|a l IH]; intros seen; simpl; [lia|].
  destruct (Array_includes seen a); simpl.
  - specialize (IH seen). lia.
  - specialize (IH (a :: seen)). lia.
Qed.

Lemma or_else_nonempty (v : option string) (d : string) :
  d <> "" -> or_else v d <> "".
Proof.
  intros Hd. destruct v as [s|]; simpl; [|exact Hd].
  destruct (String.eqb_spec s ""); assumption.
Qed.

(** X16: [BrandingStyles] renders nothing without settings.  With settings it
    imports each font once: the list has no repetition, holds exactly the
    fonts chosen for the nine roles, in the order of their first use, none
    of them empty, so between one and nine fonts, with one import line
    each. *)
Theorem BrandingStyles_fonts (s : ClubSettings.t) :
  BrandingStyles None = None
  /\ exists b,
       BrandingStyles (Some s) = Some b
       /\ NoDup (Branding.fonts b)
       /\ (forall f, In f (Branding.fonts b) <-> In f (chosen_fonts s))
       /\ (forall f, In f (Branding.fonts b) -> f <> "")
       /\ hd_error (Branding.fonts b)
          = Some (or_else (ClubSettings.globalFont s) "Montserrat")
       /\ (1 <= length (Branding.fonts b) <= 9)%nat
       /\ Branding.fontImports b
          = String.concat newline (map font_import (Branding.fonts b)).
Proof.
  split; [reflexivity|]. eexists. split; [reflexivity|].
  cbn [Branding.fonts Branding.fontImports]. fold (chosen_fonts s).
  assert (Hin : forall f, In f (Array_from_Set (chosen_fonts s))
                          <-> In f (chosen_fonts s)).
  { intros f. unfold Array_from_Set. rewrite add_all_In. simpl. tauto. }
  split; [apply add_all_NoDup|]. split; [exact Hin|]. split.
  { intros f Hf. apply Hin in Hf. unfold chosen_fonts in Hf. simpl in Hf.
    repeat (destruct Hf as [<- | Hf];
            [apply or_else_nonempty; discriminate|]).
    destruct Hf. }
  split; [reflexivity|]. split; [|reflexivity].
  split.
  - unfold Array_from_Set, chosen_fonts. simpl. lia.
  - pose proof (add_all_length [] (chosen_fonts s)) as H.
    unfold Array_from_Set. simpl in H. exact H.
Qed.

Lemma no_white_space_app (a b : string) :
  no_white_space (a ++ b) = no_white_space a && no_white_space b.
Proof.
  induction a as [|c a IH]; simpl; [reflexivity|].
  now rewrite IH, andb_assoc.
Qed.

Lemma replace_runs_no_white_space (rep : string) (in_run : bool) (s : string) :
  no_white_space rep = true ->
  no_white_space (replace_runs rep in_run s) = true.
Proof.
  intros Hrep. revert in_run.
  induction s as [|c s IH]; intros in_run; simpl; [reflexivity|].
  destruct (is_white_space c) eqn:Ec.
  - destruct in_run; [apply IH|].
    now rewrite no_white_space_app, Hrep, IH.
  - simpl. now rewrite Ec, IH.
Qed.



Lemma sanitizeColor_nonempty (color : option string) :
  sanitizeColor color <> "".
Proof.
  destruct (sanitizeColor_cases color)
    as [[_ ->] | [[s [_ [_ [_ ->]]]] | [s [_ [Hne [_ ->]]]]]];
    try discriminate. exact Hne.
Qed.

Lemma or_else_sanitizeColor (color : option string) (d : string) :
  or_else (Some (sanitizeColor color)) d = sanitizeColor color.
Proof.
  simpl. destruct (String.eqb_spec (sanitizeColor color) "") as [E|E];
    [|reflexivity].
  now apply sanitizeColor_nonempty in E.
Qed.

Lemma getClubSettings_sanitized (res : Response ClubSettings.t)
    (r : ClubSettings.t) :
  getClubSettings res = Resolved r ->
  exists p b t,
    ClubSettings.primaryColor r = Some (sanitizeColor p)
    /\ ClubSettings.buttonBg r = Some (sanitizeColor b)
    /\ ClubSettings.statColor r = Some (sanitizeColor t).
Proof.
  unfold getClubSettings.
  destruct (error res), (data res) as [d|]; intros [= <-];
    try solve [exists None, None, None; repeat split].
  exists (ClubSettings.primaryColor d), (ClubSettings.buttonBg d),
         (ClubSettings.statColor d).
  repeat split.
Qed.

(** X18: For settings that came through [getClubSettings], the style sheet sets
    the primary colour, the button background and the statistic colour to
    the sanitized values of the record: none of the three custom properties
    is ever a legacy red. *)
Theorem BrandingStyles_brand_colors (res : Response ClubSettings.t)
    (r : ClubSettings.t) :
  getClubSettings res = Resolved r ->
  exists b,
    BrandingStyles (Some r) = Some b
    /\ css_var "--primary-color" (Branding.root b) = ClubSettings.primaryColor r
    /\ css_var "--button-bg" (Branding.root b) = ClubSettings.buttonBg r
    /\ css_var "--stat-color" (Branding.root b) = ClubSettings.statColor r
    /\ forall name v,
         In name ["--primary-color"; "--button-bg"; "--stat-color"] ->
         css_var name (Branding.root b) = Some v ->
         ~ is_legacy_red v.
Proof.
  intros Hr. destruct (getClubSettings_sanitized res r Hr)
    as [p [b [t [Ep [Eb Et]]]]].
  eexists. split; [reflexivity|].
  cbn [Branding.root]. rewrite Ep, Eb, Et, !or_else_sanitizeColor.
  split; [reflexivity|]. split; [reflexivity|]. split; [reflexivity|].
  intros name v [<- | [<- | [<- | []]]]; intros [= <-];
    apply sanitizeColor_not_legacy.
Qed.

Lemma BrandingStyles_brand_colors_witness :
  exists r,
    getClubSettings (mkResponse (Some legacy_row) None) = Resolved r
    /\ exists b,
         BrandingStyles (Some r) = Some b
         /\ css_var "--primary-color" (Branding.root b)
            = ClubSettings.primaryColor r
         /\ css_var "--button-bg" (Branding.root b) = ClubSettings.buttonBg r
         /\ css_var "--stat-color" (Branding.root b) = ClubSettings.statColor r
         /\ forall name v,
              In name ["--primary-color"; "--button-bg"; "--stat-color"] ->
              css_var name (Branding.root b) = Some v ->
              ~ is_legacy_red v.
Proof.
  eexists. split; [reflexivity|].
  apply (BrandingStyles_brand_colors (mkResponse (Some legacy_row) None)).
  reflexivity.
Defined.

(** X19: The club mark is never filled with [#e11d47], in any letter case, and a
    logo URL, when there is one, wins over the mark.  For settings that came
    through [getClubSettings] the mark is filled with the record's primary
    colour, which is no legacy red in any representation. *)
Theorem BrandingLogo_never_legacy_hex :
  (forall settings c,
      BrandingLogo settings = LogoMark c ->
      toLowerCase c <> "#e11d47")
  /\ (forall s url,
        ClubSettings.logoUrl s = Some url -> url <> "" ->
        BrandingLogo (Some s) = LogoImage url)
  /\ (forall res r c,
        getClubSettings res = Resolved r ->
        BrandingLogo (Some r) = LogoMark c ->
        ClubSettings.primaryColor r = Some c /\ ~ is_legacy_red c).
Proof.
  assert (G : forall settings c,
      BrandingLogo settings = LogoMark c -> toLowerCase c <> "#e11d47").
  { intros settings c. unfold BrandingLogo. cbv zeta.
    destruct (truthy _); [discriminate|].
    match goal with
    | |- LogoMark (if ?a =? ?b then _ else _) = _ -> _ =>
        destruct (String.eqb_spec a b) as [E|E]
    end; intros [= <-]; [discriminate | exact E]. }
  split; [exact G|]. split.
  - intros s url Hu Hne. unfold BrandingLogo. cbv zeta. rewrite Hu. simpl.
    destruct (String.eqb_spec url ""); [contradiction | reflexivity].
  - intros res r c Hr Hc.
    destruct (getClubSettings_sanitized res r Hr) as [p [_ [_ [Ep _]]]].
    pose proof (G _ _ Hc) as Hhex. revert Hc.
    unfold BrandingLogo. cbv zeta.
    destruct (truthy _); [discriminate|].
    rewrite Ep, or_else_sanitizeColor.
    destruct (String.eqb_spec (toLowerCase (sanitizeColor p))
                              (toLowerCase LEGACY_RED)) as [E|E].
    + exfalso. apply (sanitizeColor_not_legacy p).
      apply legacy_ignoring_case_is_legacy. left. exact E.
    + intros [= <-]. split; [reflexivity | apply sanitizeColor_not_legacy].
Qed.

(* ================================================================= *)
(** ** Members and roster *)

Lemma includes_empty (s : string) : includes s "" = true.
Proof. apply includes_spec. now exists "", s. Qed.

Lemma includes_self (s : string) : includes s s = true.
Proof. apply includes_spec. exists "", "". simpl. now rewrite append_empty_r. Qed.

Lemma filter_all {A : Type} (f : A -> bool) (l : list A) :
  (forall x, In x l -> f x = true) -> filter f l = l.
Proof.
  induction l as [|a l IH]; simpl; intros H; [reflexivity|].
  rewrite (H a (or_introl eq_refl)), IH; auto.
Qed.

(** X20: With an empty search box every member is listed.  A member is listed
    whenever the search text equals the name up to letter case, or equals
    the id; nothing is listed that is not a member. *)
Theorem filteredMembers_spec (members : list User.t) :
  filteredMembers members "" = members
  /\ (forall search m,
        In m members ->
        toLowerCase (User.name m) = toLowerCase search \/ User.id m = search ->
        In m (filteredMembers members search))
  /\ (forall search m, In m (filteredMembers members search) -> In m members).
Proof.
  split; [|split].
  - apply filter_all. intros m _. simpl. now rewrite includes_empty.
  - intros search m Hm H. apply filter_In. split; [exact Hm|].
    destruct H as [-> | ->]; rewrite includes_self;
      [reflexivity | apply orb_true_r].
  - intros search m H. now apply filter_In in H.
Qed.

Lemma with_role_In (r : RideRole.t) (l : list RideParticipant.t)
    (p : RideParticipant.t) :
  In p (with_role r l) <-> In p l /\ RideParticipant.role p = r.
Proof.
  unfold with_role. rewrite filter_In.
  destruct (RideParticipant.role p), r; simpl; intuition congruence.
Qed.

(** X21: The four lists of the briefing split the roster: each participant is in
    the list of their role and in no other, and together the lists are the
    roster. *)
Theorem roles_partition (participants : list RideParticipant.t) :
  Permutation
    (with_role RideRole.LEAD participants
     ++ with_role RideRole.SWEEP participants
     ++ with_role RideRole.RP participants
     ++ with_role RideRole.RIDER participants)
    participants
  /\ (forall r p, In p (with_role r participants)
                  <-> In p participants /\ RideParticipant.role p = r)
  /\ (length (with_role RideRole.LEAD participants)
      + length (with_role RideRole.SWEEP participants)
      + length (with_role RideRole.RP participants)
      + length (with_role RideRole.RIDER participants)
      = length participants)%nat.
Proof.
  assert (P : Permutation
    (with_role RideRole.LEAD participants
     ++ with_role RideRole.SWEEP participants
     ++ with_role RideRole.RP participants
     ++ with_role RideRole.RIDER participants)
    participants).
  { induction participants as [|p l IH]; [constructor|].
    unfold with_role in *. simpl.
    destruct (RideParticipant.role p); simpl.
    - now constructor.
    - rewrite <- Permutation_middle. now constructor.
    - rewrite app_assoc, <- Permutation_middle, <- app_assoc. now constructor.
    - rewrite !app_assoc, <- Permutation_middle, <- !app_assoc.
      now constructor. }
  split; [exact P|]. split; [intros r p; apply with_role_In|].
  apply Permutation_length in P. rewrite !length_app in P. lia.
Qed.

Lemma confirm_userIds (st : Roster.t) :
  map RideParticipant.userId (Roster.participants (handleConfirmAttendance st))
  = map RideParticipant.userId (Roster.participants st).
Proof.
  unfold handleConfirmAttendance.
  destruct (Roster.pendingAttendance st) as [pending|]; [|reflexivity].
  simpl. rewrite map_map. apply map_ext. intros p.
  destruct (String.eqb_spec (RideParticipant.userId p)
                            (RideParticipant.userId pending)); congruence.
Qed.

Lemma flip_attended_twice (p : RideParticipant.t) :
  flip_attended (flip_attended p) = p.
Proof. destruct p as [? ? ? []]; reflexivity. Qed.

Lemma replace_by_userId (l : list RideParticipant.t)
    (p q : RideParticipant.t) :
  NoDup (map RideParticipant.userId l) -> In p l ->
  RideParticipant.userId q = RideParticipant.userId p ->
  forall x,
    In x (map (fun y => if RideParticipant.userId y =? RideParticipant.userId q
                        then q else y) l)
    <-> x = q \/ (In x l /\ x <> p).
Proof.
  intros Hnd Hp Hq x. rewrite in_map_iff. split.
  - intros [y [E Hy]].
    destruct (String.eqb_spec (RideParticipant.userId y)
                              (RideParticipant.userId q)) as [Eu|Eu].
    + left. now symmetry.
    + right. subst x. split; [exact Hy|]. intros ->. congruence.
  - intros [-> | [Hx Hne]].
    + exists p. rewrite Hq, String.eqb_refl. auto.
    + exists x. split; [|exact Hx].
      destruct (String.eqb_spec (RideParticipant.userId x)
                                (RideParticipant.userId q)) as [Eu|Eu];
        [|reflexivity].
      exfalso. apply Hne. rewrite Hq in Eu. clear Hq.
      induction l as [|a l IH]; [destruct Hx|].
      simpl in Hnd. apply NoDup_cons_iff in Hnd. destruct Hnd as [Ha Hnd].
      destruct Hx as [<- | Hx], Hp as [<- | Hp]; auto.
      * exfalso. apply Ha. rewrite Eu. now apply in_map.
      * exfalso. apply Ha. rewrite <- Eu. now apply in_map.
Qed.

(** X22: Confirming an attendance change never changes who is on the roster nor
    their order.  Only a marshal can stage a change: for any other viewer
    the click does nothing.  For a marshal, on a roster where each user
    appears once, confirming the click on a participant flips that
    participant's attendance and nothing else, and a second click and
    confirmation restore the roster. *)
Theorem attendance_toggle (st : Roster.t) (p : RideParticipant.t) :
  map RideParticipant.userId (Roster.participants (handleConfirmAttendance st))
  = map RideParticipant.userId (Roster.participants st)
  /\ toggleAttendance ClubRole.RIDER st p = st
  /\ (NoDup (map RideParticipant.userId (Roster.participants st)) ->
      In p (Roster.participants st) ->
      let st1 := handleConfirmAttendance (toggleAttendance ClubRole.MARSHAL st p) in
      (forall x, In x (Roster.participants st1)
                 <-> x = flip_attended p
                     \/ (In x (Roster.participants st) /\ x <> p))
      /\ Roster.pendingAttendance st1 = None
      /\ Roster.participants
           (handleConfirmAttendance
              (toggleAttendance ClubRole.MARSHAL st1 (flip_attended p)))
         = Roster.participants st).
Proof.
  split; [apply confirm_userIds|]. split; [reflexivity|].
  intros Hnd Hp. cbv zeta. simpl. split; [|split; [reflexivity|]].
  - intros x.
    exact (replace_by_userId _ p (flip_attended p) Hnd Hp eq_refl x).
  - rewrite flip_attended_twice, map_map.
    rewrite <- (map_id (Roster.participants st)) at 2.
    apply map_ext_in. intros y Hy. simpl.
    destruct (String.eqb_spec (RideParticipant.userId y)
                              (RideParticipant.userId p)) as [Eu|Eu].
    + rewrite String.eqb_refl.
      clear - Hnd Hp Hy Eu.
      induction (Roster.participants st) as [|a l IH]; [destruct Hy|].
      simpl in Hnd. apply NoDup_cons_iff in Hnd. destruct Hnd as [Ha Hnd].
      destruct Hy as [<- | Hy], Hp as [<- | Hp]; auto.
      * exfalso. apply Ha. rewrite Eu. now apply in_map.
      * exfalso. apply Ha. rewrite <- Eu. now apply in_map.
    + destruct (String.eqb_spec (RideParticipant.userId y)
                                (RideParticipant.userId p)); congruence.
Qed.

(* ================================================================= *)
(** ** Login *)

Lemma blank_trimStart (s : string) : blank s = true -> trimStart s = "".
Proof.
  induction s as [|c s IH]; simpl; [reflexivity|].
  destruct (is_white_space c); [exact IH | discriminate].
Qed.

Lemma blank_trim (s : string) : blank s = true -> trim s = "".
Proof. intros H. unfold trim. now rewrite blank_trimStart. Qed.

(** X23: With a phone number or a password that is empty or all white space,
    [handleLogin] does not ask the backend: whatever it would answer, the
    message is that credentials are required and nobody is let in. *)
Theorem handleLogin_blank (users_query : string -> string -> Response User.t)
    (st : LoginState.t) (phone password : string) :
  blank phone = true \/ blank password = true ->
  handleLogin users_query st phone password
  = {| LoginState.error := "Credentials required.";
       LoginState.tempUser := LoginState.tempUser st;
       LoginState.showEntrySequence := LoginState.showEntrySequence st |}.
Proof.
  intros H. unfold handleLogin. cbv zeta.
  assert (E : (replace_white_space (trim phone) "" =? "")
              || (trim password =? "") = true).
  { destruct H as [H|H]; rewrite (blank_trim _ H); [reflexivity|].
    apply orb_true_r. }
  now rewrite E.
Qed.

Lemma handleLogin_blank_witness :
  handleLogin (fun _ _ => mkResponse (Some (rider 0 0 0 0 0)) None)
    {| LoginState.error := ""; LoginState.tempUser := None;
       LoginState.showEntrySequence := false |}
    "98200 00001" "   "
  = {| LoginState.error := "Credentials required.";
       LoginState.tempUser := None;
       LoginState.showEntrySequence := false |}.
Proof.
  apply (handleLogin_blank
           (fun _ _ => mkResponse (Some (rider 0 0 0 0 0)) None)
           {| LoginState.error := ""; LoginState.tempUser := None;
              LoginState.showEntrySequence := false |}
           "98200 00001" "   ").
  right. reflexivity.
Defined.

(** X24: The backend is asked only about an id without white space and about
    credentials that are not empty: two backends that agree on such queries
    cannot be told apart through [handleLogin]. *)
Theorem handleLogin_query_is_clean
    (q1 q2 : string -> string -> Response User.t)
    (st : LoginState.t) (phone password : string) :
  (forall id pw, no_white_space id = true -> id <> "" -> pw <> "" ->
                 q1 id pw = q2 id pw) ->
  handleLogin q1 st phone password = handleLogin q2 st phone password.
Proof.
  intros H. unfold handleLogin. cbv zeta.
  destruct (String.eqb_spec (replace_white_space (trim phone) "") "") as [E1|E1];
    [reflexivity|].
  destruct (String.eqb_spec (trim password) "") as [E2|E2]; [reflexivity|].
  cbv beta iota delta [orb].
  rewrite (H (replace_white_space (trim phone) "") (trim password)
             (replace_runs_no_white_space "" false _ eq_refl) E1 E2).
  reflexivity.
Qed.

Lemma handleLogin_query_is_clean_witness :
  handleLogin
    (fun id _ => if no_white_space id
                 then mkResponse (Some (rider 0 0 0 0 0)) None
                 else mkResponse None None)
    {| LoginState.error := ""; LoginState.tempUser := None;
       LoginState.showEntrySequence := false |}
    " 98200 00001 " "secret"
  = handleLogin
      (fun _ _ => mkResponse (Some (rider 0 0 0 0 0)) None)
      {| LoginState.error := ""; LoginState.tempUser := None;
         LoginState.showEntrySequence := false |}
      " 98200 00001 " "secret".
Proof.
  apply (handleLogin_query_is_clean
           (fun id _ => if no_white_space id
                        then mkResponse (Some (rider 0 0 0 0 0)) None
                        else mkResponse None None)
           (fun _ _ => mkResponse (Some (rider 0 0 0 0 0)) None)).
  intros id pw Hid _ _. now rewrite Hid.
Defined.

(** X25: [handleLogin] lets a user in only with a row the backend returned
    without error for the cleaned credentials.  Otherwise the user and the
    entry sequence stay as they were, and the message is that credentials
    are required or begins with Authentication failed. *)
Theorem handleLogin_outcome (users_query : string -> string -> Response User.t)
    (st : LoginState.t) (phone password : string) :
  let st' := handleLogin users_query st phone password in
  let res := users_query (cleanPhone phone) (cleanPass password) in
  (exists u,
      LoginState.tempUser st' = Some u
      /\ LoginState.showEntrySequence st' = true
      /\ LoginState.error st' = ""
      /\ data res = Some u /\ error res = None
      /\ cleanPhone phone <> "" /\ cleanPass password <> "")
  \/ (LoginState.tempUser st' = LoginState.tempUser st
      /\ LoginState.showEntrySequence st' = LoginState.showEntrySequence st
      /\ (LoginState.error st' = "Credentials required."
          \/ exists m, LoginState.error st' = "Authentication failed: " ++ m)).
Proof.
  unfold handleLogin, cleanPhone, cleanPass. cbv zeta.
  destruct (String.eqb_spec (replace_white_space (trim phone) "") "") as [E1|E1];
    [right; simpl; auto|].
  destruct (String.eqb_spec (trim password) "") as [E2|E2];
    [right; simpl; auto|].
  simpl. unfold api.login.
  destruct (error (users_query _ _)) as [e|] eqn:Ee.
  - right. simpl. repeat split. right. now exists (message e).
  - destruct (data (users_query _ _)) as [u|] eqn:Ed.
    + left. exists u. simpl. repeat split; assumption.
    + right. simpl. repeat split. right. now exists "Invalid Credentials".
Qed.

(* ================================================================= *)
(** ** Participants of a ride *)

(** X26: Without a ride id, or with the empty one, [getRideParticipants] resolves
    to the whole table; with an id, to the participants of that ride and no
    others, in table order; a refused read is rejected. *)
Theorem getRideParticipants_spec (table : list RideParticipant.t) :
  api.getRideParticipants table None None = Resolved table
  /\ api.getRideParticipants table None (Some "") = Resolved table
  /\ (forall i, i <> "" ->
        exists l,
          api.getRideParticipants table None (Some i) = Resolved l
          /\ (forall p, In p l <-> In p table /\ RideParticipant.rideId p = i))
  /\ (forall e rideId,
        api.getRideParticipants table (Some e) rideId = Rejected e).
Proof.
  split; [reflexivity|]. split; [reflexivity|]. split; [|reflexivity].
  intros i Hi.
  exists (filter (fun p => RideParticipant.rideId p =? i) table). split.
  - unfold api.getRideParticipants. simpl.
    destruct (String.eqb_spec i ""); [contradiction|]. reflexivity.
  - intros p. rewrite filter_In, String.eqb_eq. tauto.
Qed.

(* ================================================================= *)
(** ** What fetched settings guarantee *)

Lemma or_field_truthy (v : option string) (d : string) :
  d <> "" -> truthy (or_field v (Some d)) = true.
Proof.
  intros Hd. unfold or_field. destruct (truthy v) eqn:E; [exact E|].
  simpl. now destruct (String.eqb_spec d "").
Qed.

Lemma or_else_truthy (v : option string) (d : string) :
  truthy v = true -> Some (or_else v d) = v.
Proof.
  destruct v as [s|]; simpl; [|discriminate].
  now destruct (s =? "").
Qed.

(** X27: Whatever the backend answers, the record [getClubSettings] resolves to
    has a catalogue, so the progress grid is always rendered with its five
    slots, and has nine fonts that are not empty, so the fallback fonts of
    the style sheet are never used for it. *)
Theorem fetched_settings_complete (res : Response ClubSettings.t)
    (r : ClubSettings.t) (user : User.t) :
  getClubSettings res = Resolved r ->
  (exists grid, AchievementProgress user (Some r) = Some grid
                /\ length grid = 5%nat)
  /\ (forall f, In f (font_fields r) -> truthy f = true)
  /\ map Some (chosen_fonts r) = font_fields r.
Proof.
  intros Hr.
  assert (Hf : forall f, In f (font_fields r) -> truthy f = true).
  { unfold getClubSettings in Hr.
    destruct (error res), (data res) as [d|]; injection Hr as <-;
      intros f Hf; simpl in Hf;
      repeat (destruct Hf as [<- | Hf];
              [first [reflexivity | apply or_field_truthy; discriminate]|]);
      destruct Hf. }
  split; [|split; [exact Hf|]].
  - unfold AchievementProgress.
    assert (Ha : exists l, ClubSettings.achievements r = Some l).
    { unfold getClubSettings in Hr.
      destruct (error res), (data res) as [d|]; injection Hr as <-;
        simpl; eauto.
      destruct (ClubSettings.achievements d); eauto. }
    destruct Ha as [l ->]. eexists. split; [reflexivity|].
    now rewrite length_map.
  - unfold chosen_fonts, font_fields in *. simpl.
    rewrite !or_else_truthy; [reflexivity| | | | | | | | |];
      apply Hf; simpl; tauto.
Qed.

Lemma fetched_settings_complete_witness :
  exists r,
    getClubSettings (mkResponse (Some legacy_row) None) = Resolved r
    /\ (exists grid, AchievementProgress (rider 0 0 0 0 0) (Some r) = Some grid
                     /\ length grid = 5%nat)
    /\ (forall f, In f (font_fields r) -> truthy f = true)
    /\ map Some (chosen_fonts r) = font_fields r.
Proof.
  eexists. split; [reflexivity|].
  apply (fetched_settings_complete (mkResponse (Some legacy_row) None) _
           (rider 0 0 0 0 0)).
  reflexivity.
Defined.
